(** * The UNO deck of [uno/engine/deck.py], embedded and verified

    The deck is a Python object whose single attribute [_cards] is a
    [collections.deque]; its methods mutate that deque in place and report
    argument errors by raising [ValueError].  The embedding keeps both
    effects: a method is a computation in a state monad whose outcome is
    either a returned value or a raised exception, and the state survives a
    raise (as the object survives one in Python).  Python integers are [Z];
    [len] of a container is the [Z] image of the list length. *)

From Stdlib Require Import ZArith List Lia.
From stdpp Require Import base option list gmap.

Local Open Scope Z_scope.

(** ** Exceptions and the method monad *)

(** The exceptions that the modelled code can raise.  The messages built
    with f-strings carry no behaviour and are left out.  [OverflowError] is
    what the C implementation of a library method raises when an integer
    argument does not fit a machine word.  [InvalidRef] is not a Python
    exception: it is the outcome of calling a method through a reference
    that the store does not hold, which cannot occur in Python. *)
Inductive exn : Type :=
  | ValueError
  | IndexError
  | KeyError
  | OverflowError
  | InvalidRef.

Inductive outcome (A : Type) : Type :=
  | Ret (a : A)
  | Raise (e : exn).
Arguments Ret {A} a.
Arguments Raise {A} e.

(** A computation over a mutable state [S]: the state is returned in both
    outcomes. *)
Definition M (S A : Type) : Type := S -> outcome A * S.

Definition ret {S A} (a : A) : M S A := fun s => (Ret a, s).

Definition raise {S A} (e : exn) : M S A := fun s => (Raise e, s).

Definition bind {S A B} (m : M S A) (k : A -> M S B) : M S B :=
  fun s =>
    match m s with
    | (Ret a, s') => k a s'
    | (Raise e, s') => (Raise e, s')
    end.

Definition get {S} : M S S := fun s => (Ret s, s).

Definition put {S} (s : S) : M S unit := fun _ => (Ret tt, s).

Declare Scope py_scope.
Delimit Scope py_scope with py.
Notation "x <- m ;; k" := (bind m (fun x => k))
  (at level 100, m at next level, right associativity) : py_scope.
Notation "m ;;; k" := (bind m (fun _ => k))
  (at level 100, right associativity) : py_scope.
Local Open Scope py_scope.

(** Running a computation on a component of the state ([self._cards] inside
    [self], the generator inside the world). *)
Definition zoom {S T A} (proj : S -> T) (upd : T -> S -> S) (m : M T A) : M S A :=
  fun s => let (r, t) := m (proj s) in (r, upd t s).

(** [[body(x) for x in xs]] *)
Fixpoint list_comp {S A B} (xs : list A) (body : A -> M S B) : M S (list B) :=
  match xs with
  | [] => ret []
  | x :: xs' => y <- body x ;; ys <- list_comp xs' body ;; ret (y :: ys)
  end.

(** [for x in xs: body(x)] *)
Fixpoint for_each {S A} (xs : list A) (body : A -> M S unit) : M S unit :=
  match xs with
  | [] => ret tt
  | x :: xs' => body x ;;; for_each xs' body
  end.

(** [for x in xs: acc = body(acc, x)], the loop with a local accumulator *)
Fixpoint for_fold {S A B} (xs : list A) (body : B -> A -> M S B) (acc : B) : M S B :=
  match xs with
  | [] => ret acc
  | x :: xs' => acc' <- body acc x ;; for_fold xs' body acc'
  end.

(** [range(n)] and [range(a, b)] *)
Definition range (n : Z) : list Z := seqZ 0 n.
Definition range2 (a b : Z) : list Z := seqZ a (b - a).

(** Python's [len] *)
Definition len {A} (l : list A) : Z := Z.of_nat (length l).

(** The slice [l[:stop]]: a negative [stop] counts from the end. *)
Definition slice_to {A} (stop : Z) (l : list A) : list A :=
  if 0 <=? stop then take (Z.to_nat stop) l
  else take (Z.to_nat (len l + stop)) l.

(** The range of a C [Py_ssize_t] (64-bit build), to which CPython converts
    the integer argument of [deque.rotate]. *)
Definition PY_SSIZE_T_MAX : Z := 9223372036854775807.
Definition PY_SSIZE_T_MIN : Z := -9223372036854775808.

Definition fits_ssize_t (n : Z) : bool :=
  (PY_SSIZE_T_MIN <=? n) && (n <=? PY_SSIZE_T_MAX).

(** ** [collections.deque]

    A deque is the list of its elements, leftmost first.  The operations
    follow the Python library documentation. *)
Section Deque.
Context {A : Type}.

Definition deque_len : M (list A) Z := fun d => (Ret (len d), d).

Definition deque_to_list : M (list A) (list A) := get.

Definition deque_append (x : A) : M (list A) unit :=
  fun d => (Ret tt, d ++ [x]).

Definition deque_appendleft (x : A) : M (list A) unit :=
  fun d => (Ret tt, x :: d).

Definition deque_extend (xs : list A) : M (list A) unit :=
  for_each xs deque_append.

Definition deque_clear : M (list A) unit := put [].

(** [popleft] and [pop] raise [IndexError] on an empty deque. *)
Definition deque_popleft : M (list A) A :=
  fun d =>
    match d with
    | [] => (Raise IndexError, d)
    | x :: d' => (Ret x, d')
    end.

Definition deque_pop : M (list A) A :=
  fun d =>
    match last d with
    | None => (Raise IndexError, d)
    | Some x => (Ret x, removelast d)
    end.

(** [rotate(n)]: "Rotate the deque n steps to the right.  If n is
    negative, rotate to the left.  When the deque is not empty, rotating
    one step to the right is equivalent to [d.appendleft(d.pop())], and
    rotating one step to the left is equivalent to
    [d.append(d.popleft())]."  The argument is first converted to a
    [Py_ssize_t]: outside that range the call raises [OverflowError] and
    the deque, empty or not, is left as it is. *)
Definition rotate_right_step : M (list A) unit :=
  x <- deque_pop ;; deque_appendleft x.

Definition rotate_left_step : M (list A) unit :=
  x <- deque_popleft ;; deque_append x.

Fixpoint repeat_steps (n : nat) (step : M (list A) unit) : M (list A) unit :=
  match n with
  | O => ret tt
  | S n' => step ;;; repeat_steps n' step
  end.

Definition deque_rotate (n : Z) : M (list A) unit :=
  if negb (fits_ssize_t n) then raise OverflowError
  else
    k <- deque_len ;;
    if k =? 0 then ret tt
    else if 0 <=? n then repeat_steps (Z.to_nat n) rotate_right_step
    else repeat_steps (Z.to_nat (- n)) rotate_left_step.
End Deque.

(** ** The [Deck] class *)
Section DeckClass.
Context {Card : Type}.

(** The object: one attribute, [self._cards]. *)
Record Deck : Type := mkDeck { _cards : list Card }.

(** A deque method called on [self._cards]. *)
Definition on_cards {B} (m : M (list Card) B) : M Deck B :=
  zoom _cards (fun c _ => mkDeck c) m.

Definition size : M Deck Z := on_cards deque_len.

Definition is_empty : M Deck bool :=
  n <- on_cards deque_len ;; ret (n =? 0).

Definition draw (count : Z) : M Deck (list Card) :=
  if count <? 0 then raise ValueError
  else
    n <- on_cards deque_len ;;
    if count >? n then raise ValueError
    else list_comp (range count) (fun _ => on_cards deque_popleft).

Definition draw_one : M Deck (option Card) :=
  e <- is_empty ;;
  if e then ret None
  else c <- on_cards deque_popleft ;; ret (Some c).

Definition add_card (card : Card) : M Deck unit :=
  on_cards (deque_append card).

Definition add_cards (cards : list Card) : M Deck unit :=
  on_cards (deque_extend cards).

Definition add_to_top (card : Card) : M Deck unit :=
  on_cards (deque_appendleft card).

Definition add_cards_to_top (cards : list Card) : M Deck unit :=
  for_each (reverse cards) (fun card => on_cards (deque_appendleft card)).

Definition peek (count : Z) : M Deck (list Card) :=
  if count <? 0 then raise ValueError
  else
    n <- on_cards deque_len ;;
    if count >? n then raise ValueError
    else l <- on_cards deque_to_list ;; ret (slice_to count l).

Definition clear : M Deck unit := on_cards deque_clear.

Definition rotate (positions : Z) : M Deck unit :=
  on_cards (deque_rotate positions).

(** [__iter__], consumed by [list(deck)] *)
Definition iter_list : M Deck (list Card) := on_cards deque_to_list.
End DeckClass.
Arguments Deck Card : clear implicits.

(** ** Cards

    The module [card] is imported by [deck.py] and is not part of the
    verified file.  The deck reads a card only through the attributes
    [color], [label], [is_number_card], [is_action_card] and [is_wild], and
    builds cards only through the three [CardFactory] constructors; both
    are interfaces here.  The two enumerations are iterated over by
    [get_card_distribution], so they are given in full. *)

(** Modelled from the spec: the enumeration [CardColor] of [card.py], "one
    of a fixed small enum, or a wild sentinel".  The four colour names are
    those of [Deck._COLORS]. *)
Inductive CardColor : Type :=
  | RED | BLUE | GREEN | YELLOW | WILD_COLOR.

(** Modelled from the spec: the enumeration [CardLabel] of [card.py],
    "number 0-9, one of a fixed set of action kinds, or one of a fixed set
    of wild kinds".  The action and wild names are those of
    [Deck._ACTIONS] and [Deck._WILDS]. *)
Inductive CardLabel : Type :=
  | ZERO | ONE | TWO | THREE | FOUR | FIVE | SIX | SEVEN | EIGHT | NINE
  | SKIP | REVERSE | DRAW_TWO
  | WILD | WILD_DRAW_FOUR.

(** [for color in CardColor], [for label in CardLabel] *)
Definition all_colors : list CardColor :=
  [RED; BLUE; GREEN; YELLOW; WILD_COLOR].

Definition all_labels : list CardLabel :=
  [ZERO; ONE; TWO; THREE; FOUR; FIVE; SIX; SEVEN; EIGHT; NINE;
   SKIP; REVERSE; DRAW_TWO; WILD; WILD_DRAW_FOUR].

#[global] Instance CardColor_eq_dec : EqDecision CardColor.
Proof. solve_decision. Defined.

#[global] Instance CardLabel_eq_dec : EqDecision CardLabel.
Proof. solve_decision. Defined.

Definition color_index (c : CardColor) : nat :=
  match c with
  | RED => 0 | BLUE => 1 | GREEN => 2 | YELLOW => 3 | WILD_COLOR => 4
  end%nat.

Definition label_index (l : CardLabel) : nat :=
  match l with
  | ZERO => 0 | ONE => 1 | TWO => 2 | THREE => 3 | FOUR => 4 | FIVE => 5
  | SIX => 6 | SEVEN => 7 | EIGHT => 8 | NINE => 9
  | SKIP => 10 | REVERSE => 11 | DRAW_TWO => 12
  | WILD => 13 | WILD_DRAW_FOUR => 14
  end%nat.

#[global] Program Instance CardColor_countable : Countable CardColor :=
  inj_countable' color_index (fun n => nth n all_colors RED) _.
Next Obligation. by intros []. Qed.

#[global] Program Instance CardLabel_countable : Countable CardLabel :=
  inj_countable' label_index (fun n => nth n all_labels ZERO) _.
Next Obligation. by intros []. Qed.

(** What the deck reads of a card. *)
Class CardAPI (Card : Type) : Type := {
  color : Card -> CardColor;
  label : Card -> CardLabel;
  is_number_card : Card -> bool;
  is_action_card : Card -> bool;
  is_wild : Card -> bool
}.

(** What the deck uses to build cards. *)
Class CardFactory (Card : Type) : Type := {
  create_number_card : CardColor -> Z -> Card;
  create_action_card : CardColor -> CardLabel -> Card;
  create_wild_card : CardLabel -> Card
}.

(** ** Card distribution *)

(** The dictionary returned by [get_card_distribution].  The two inner
    dictionaries are keyed by the enumeration member instead of its [name]:
    the names of an enumeration are distinct. *)
Record Distribution : Type := mkDistribution {
  total : Z;
  number_cards : Z;
  action_cards : Z;
  wild_cards : Z;
  by_color : gmap CardColor Z;
  by_label : gmap CardLabel Z
}.

(** [{k: 0 for k in keys}] *)
Definition zero_dict {K} `{Countable K} (keys : list K) : gmap K Z :=
  list_to_map ((fun k => (k, 0)) <$> keys).

(** [d[k] += 1]: reading a missing key raises [KeyError]. *)
Definition dict_incr {S K} `{Countable K} (k : K) (d : gmap K Z) : M S (gmap K Z) :=
  match d !! k with
  | Some v => ret (<[k := v + 1]> d)
  | None => raise KeyError
  end.

Section Distribution.
Context {Card : Type} `{CardAPI Card}.

(** The body of the loop over [self._cards]. *)
Definition count_card (distribution : Distribution) (card : Card)
  : M (Deck Card) Distribution :=
  bc <- dict_incr (color card) (by_color distribution) ;;
  bl <- dict_incr (label card) (by_label distribution) ;;
  let d := mkDistribution (total distribution) (number_cards distribution)
             (action_cards distribution) (wild_cards distribution) bc bl in
  if is_number_card card then
    ret (mkDistribution (total d) (number_cards d + 1) (action_cards d)
           (wild_cards d) (by_color d) (by_label d))
  else if is_action_card card then
    ret (mkDistribution (total d) (number_cards d) (action_cards d + 1)
           (wild_cards d) (by_color d) (by_label d))
  else if is_wild card then
    ret (mkDistribution (total d) (number_cards d) (action_cards d)
           (wild_cards d + 1) (by_color d) (by_label d))
  else ret d.

Definition get_card_distribution : M (Deck Card) Distribution :=
  n <- size ;;
  let distribution :=
    mkDistribution n 0 0 0 (zero_dict all_colors) (zero_dict all_labels) in
  cards <- iter_list ;;
  for_fold cards count_card distribution.
End Distribution.

(** ** Standard initialization *)
Section StandardDeck.
Context {Card : Type} `{CardFactory Card}.

Definition _ACTIONS : list CardLabel := [SKIP; REVERSE; DRAW_TWO].
Definition _WILDS : list CardLabel := [WILD; WILD_DRAW_FOUR].
Definition _COLORS : list CardColor := [RED; BLUE; GREEN; YELLOW].

(** The three loops that fill the local list [cards_to_add]; every
    [append] is a [++ [_]]. *)
Definition number_cards_to_add (cards_to_add : list Card) : list Card :=
  foldl (fun acc color =>
           let acc := acc ++ [create_number_card color 0] in
           foldl (fun acc number =>
                    (acc ++ [create_number_card color number])
                      ++ [create_number_card color number])
                 acc (range2 1 10))
        cards_to_add _COLORS.

Definition action_cards_to_add (cards_to_add : list Card) : list Card :=
  foldl (fun acc color =>
           foldl (fun acc action =>
                    (acc ++ [create_action_card color action])
                      ++ [create_action_card color action])
                 acc _ACTIONS)
        cards_to_add _COLORS.

Definition wild_cards_to_add (cards_to_add : list Card) : list Card :=
  foldl (fun acc wild_type =>
           foldl (fun acc _ => acc ++ [create_wild_card wild_type])
                 acc (range 4))
        cards_to_add _WILDS.

Definition _initialize_standard_deck : M (Deck Card) unit :=
  on_cards deque_clear ;;;
  let cards_to_add :=
    wild_cards_to_add (action_cards_to_add (number_cards_to_add [])) in
  on_cards (deque_extend cards_to_add).

(** [Deck.__init__], run on the object being created. *)
Definition Deck_init (initialize : bool) : M (Deck Card) unit :=
  put (mkDeck []) ;;;
  if initialize then _initialize_standard_deck else ret tt.

(** [Deck(initialize)] seen as a value: the new object after [__init__]. *)
Definition new_Deck (initialize : bool) : outcome unit * Deck Card :=
  Deck_init initialize (mkDeck []).
End StandardDeck.

(** ** Shuffling

    [Deck.shuffle] copies the deque to a list, calls [random.shuffle] on it
    and stores a new deque.  [random.shuffle] is the library's Fisher-Yates
    loop:
<<
      for i in reversed(range(1, len(x))):
          j = randbelow(i + 1)
          x[i], x[j] = x[j], x[i]
>>
    The generator is a state [G] with an arbitrary transition [next] that
    yields a natural number; [randbelow(n)] reduces it to the interval
    [0, n), so that every sequence of in-range draws is the behaviour of
    some generator. *)
Section Shuffle.
Context {G : Type} (next : G -> nat * G).
Context {Card : Type}.

Definition randbelow (n : nat) : M G nat :=
  fun g => let (r, g') := next g in (Ret (r mod n)%nat, g').

(** [x[i], x[j] = x[j], x[i]]: the right-hand side is read first, and a
    read out of range raises [IndexError]. *)
Definition swap_items {A} (i j : nat) (x : list A) : M G (list A) :=
  match x !! j, x !! i with
  | Some xj, Some xi => ret (<[j := xi]> (<[i := xj]> x))
  | _, _ => raise IndexError
  end.

Definition random_shuffle {A} (x : list A) : M G (list A) :=
  for_fold (reverse (seq 1 (length x - 1)))
           (fun x i => j <- randbelow (i + 1) ;; swap_items i j x)
           x.

(** The world of [shuffle]: the generator of module [random] and [self]. *)
Definition shuffle : M (G * Deck Card) unit :=
  cards_list <- zoom snd (fun d w => (w.1, d)) iter_list ;;
  cards_list <- zoom fst (fun g w => (g, w.2)) (random_shuffle cards_list) ;;
  zoom snd (fun d w => (w.1, d)) (put (mkDeck cards_list)).
End Shuffle.

(** ** Module-level functions

    They take and return deck objects, so they run on a store of objects
    addressed by references.  Two arguments may be the same reference. *)
Section Store.
Context {Card : Type} `{CardFactory Card}.

(** A method call [ref.method(...)]. *)
Definition call {B} (ref : nat) (m : M (Deck Card) B)
  : M (gmap nat (Deck Card)) B :=
  fun h =>
    match h !! ref with
    | Some self => let (r, self') := m self in (r, <[ref := self']> h)
    | None => (Raise InvalidRef, h)
    end.

(** [Deck(initialize)]: a new object at a reference not in use; it
    enters the store when [__init__] returns. *)
Definition Deck_new (initialize : bool) : M (gmap nat (Deck Card)) nat :=
  fun h =>
    let ref := fresh (dom h) in
    match new_Deck initialize with
    | (Ret _, self) => (Ret ref, <[ref := self]> h)
    | (Raise e, _) => (Raise e, h)
    end.

Definition create_empty_deck : M (gmap nat (Deck Card)) nat :=
  Deck_new false.

Definition merge_decks (deck1 deck2 : nat) : M (gmap nat (Deck Card)) nat :=
  new_deck <- create_empty_deck ;;
  l1 <- call deck1 iter_list ;;
  call new_deck (add_cards l1) ;;;
  l2 <- call deck2 iter_list ;;
  call new_deck (add_cards l2) ;;;
  ret new_deck.
End Store.

(** ** A concrete card module *)

(** Modelled from the spec: the [Card] value of [card.py], a colour and a
    label, with the predicates "is a number card", "is an action card" and
    "is wild" derived from the label. *)
Record UnoCard : Type := mkCard { card_color : CardColor; card_label : CardLabel }.

#[global] Instance UnoCard_api : CardAPI UnoCard := {
  color := card_color;
  label := card_label;
  is_number_card c := bool_decide (label_index (card_label c) < 10)%nat;
  is_action_card c := bool_decide (card_label c ∈ [SKIP; REVERSE; DRAW_TWO]);
  is_wild c := bool_decide (card_label c ∈ [WILD; WILD_DRAW_FOUR])
}.

(** Modelled from the spec: the label of the number card [n], for the
    numbers 0 to 9 that the deck asks for.  Any other number is given the
    label of 9 here; the deck never passes one. *)
Definition number_label (n : Z) : CardLabel :=
  nth (Z.to_nat n) [ZERO; ONE; TWO; THREE; FOUR; FIVE; SIX; SEVEN; EIGHT] NINE.

(** Modelled from the spec: the three [CardFactory] constructors of
    [card.py]; a wild card carries the wild colour sentinel. *)
#[global] Instance UnoCard_factory : CardFactory UnoCard := {
  create_number_card c n := mkCard c (number_label n);
  create_action_card c a := mkCard c a;
  create_wild_card w := mkCard WILD_COLOR w
}.

(** A generator for examples: a linear congruential step. *)
Definition lcg_next (g : nat) : nat * nat :=
  let g' := ((g * 75 + 74) mod 1009)%nat in (g', g').

(** ** Vocabulary of the statements *)

(** The deque after [rotate(n)] in closed form: the last [n mod len] cards
    move to the front. *)
Definition rotated {A} (n : Z) (l : list A) : list A :=
  let j := Z.to_nat (n mod len l) in
  drop (length l - j) l ++ take (length l - j) l.

(** The number of elements of [l] that satisfy [p], as a Python integer. *)
Fixpoint count_if {A} (p : A -> bool) (l : list A) : Z :=
  match l with
  | [] => 0
  | x :: l' => Z.b2z (p x) + count_if p l'
  end.

(** What [deck.py] relies on when it builds the standard deck: the
    factory, asked for what the deck asks, returns a card of the requested
    colour and of the requested kind only; a wild card has the wild colour
    sentinel. *)
Class CardFactoryLaws (Card : Type) `{CardAPI Card, CardFactory Card} : Prop := {
  number_card_color c n :
    0 <= n <= 9 -> color (create_number_card c n) = c;
  number_card_is_number c n :
    0 <= n <= 9 -> is_number_card (create_number_card c n) = true;
  action_card_color c a :
    a ∈ _ACTIONS -> color (create_action_card c a) = c;
  action_card_not_number c a :
    a ∈ _ACTIONS -> is_number_card (create_action_card c a) = false;
  action_card_is_action c a :
    a ∈ _ACTIONS -> is_action_card (create_action_card c a) = true;
  wild_card_color w :
    w ∈ _WILDS -> color (create_wild_card w) = WILD_COLOR;
  wild_card_not_number w :
    w ∈ _WILDS -> is_number_card (create_wild_card w) = false;
  wild_card_not_action w :
    w ∈ _WILDS -> is_action_card (create_wild_card w) = false;
  wild_card_is_wild w :
    w ∈ _WILDS -> is_wild (create_wild_card w) = true
}.

(** The calls that a deck makes to the factory.  Taken as cards, with the
    constructors as factory, they make the deck record what it asks for. *)
Inductive card_request : Type :=
  | NumberCard (c : CardColor) (n : Z)
  | ActionCard (c : CardColor) (a : CardLabel)
  | WildCard (w : CardLabel).

#[global] Instance request_factory : CardFactory card_request := {
  create_number_card := NumberCard;
  create_action_card := ActionCard;
  create_wild_card := WildCard
}.

(** The card that a factory returns for a request. *)
Definition build {Card} `{CardFactory Card} (r : card_request) : Card :=
  match r with
  | NumberCard c n => create_number_card c n
  | ActionCard c a => create_action_card c a
  | WildCard w => create_wild_card w
  end.

(** The requests that [CardFactoryLaws] speaks about. *)
Definition documented (r : card_request) : bool :=
  match r with
  | NumberCard _ n => (0 <=? n) && (n <=? 9)
  | ActionCard _ a => bool_decide (a ∈ _ACTIONS)
  | WildCard w => bool_decide (w ∈ _WILDS)
  end.

Definition request_color (r : card_request) : CardColor :=
  match r with
  | NumberCard c _ | ActionCard c _ => c
  | WildCard _ => WILD_COLOR
  end.

Definition is_number_request (r : card_request) : bool :=
  match r with NumberCard _ _ => true | _ => false end.

Definition is_action_request (r : card_request) : bool :=
  match r with ActionCard _ _ => true | _ => false end.

Definition is_wild_request (r : card_request) : bool :=
  match r with WildCard _ => true | _ => false end.

(** The requests of [_initialize_standard_deck], in order. *)
Definition standard_requests : list card_request :=
  wild_cards_to_add (action_cards_to_add (number_cards_to_add [])).

(** Two decks in a store, for examples. *)
Definition two_decks : gmap nat (Deck UnoCard) :=
  <[0%nat := mkDeck [mkCard RED FIVE; mkCard BLUE SKIP]]>
    (<[1%nat := mkDeck [mkCard WILD_COLOR WILD]]> ∅).

(** ** The rest of [deck.py]: special methods, builder, factories *)

(** Reading a component of the state. *)
Definition reads {S A} (f : S -> A) : M S A := fun s => (Ret (f s), s).

(** A computation on the first or on the second component of a pair. *)
Definition in_fst {S T A} (m : M S A) : M (S * T) A :=
  zoom fst (fun a w => (a, w.2)) m.

Definition in_snd {S T A} (m : M T A) : M (S * T) A :=
  zoom snd (fun b w => (w.1, b)) m.

Section DeckSpecialMethods.
Context {Card : Type} `{EqDecision Card}.

(** [x in d] on a deque compares by [==]; the equality of cards is the
    decidable equality of the card values. *)
Definition deque_contains (x : Card) : M (list Card) bool :=
  fun d => (Ret (bool_decide (x ∈ d)), d).

Definition __len__ : M (Deck Card) Z := on_cards deque_len.

Definition __bool__ : M (Deck Card) bool :=
  e <- is_empty ;; ret (negb e).

Definition __contains__ (card : Card) : M (Deck Card) bool :=
  on_cards (deque_contains card).
End DeckSpecialMethods.

Section Builder.
Context {Card : Type} `{CardFactory Card}.

(** The builder object: its two attributes. *)
Record DeckBuilder : Type := mkDeckBuilder {
  _include_standard_cards : bool;
  _custom_cards : list Card
}.

(** [DeckBuilder()] after [__init__] *)
Definition DeckBuilder_new : DeckBuilder := mkDeckBuilder true [].

(** The three configuration methods return [self]; a chain of calls is
    their sequence on the same object. *)
Definition exclude_standard_cards : M DeckBuilder unit :=
  fun self => (Ret tt, mkDeckBuilder false (_custom_cards self)).

Definition add_custom_card (card : Card) : M DeckBuilder unit :=
  fun self =>
    (Ret tt, mkDeckBuilder (_include_standard_cards self)
                           (_custom_cards self ++ [card])).

Definition add_custom_cards (cards : list Card) : M DeckBuilder unit :=
  zoom _custom_cards
       (fun l self => mkDeckBuilder (_include_standard_cards self) l)
       (deque_extend cards).

(** [DeckBuilder.build] runs on the builder and on the store of decks.  The
    test [if self._custom_cards:] is the test for a non-empty list. *)
Definition DeckBuilder_build : M (DeckBuilder * gmap nat (Deck Card)) nat :=
  flag <- in_fst (reads _include_standard_cards) ;;
  deck <- in_snd (Deck_new flag) ;;
  custom <- in_fst (reads _custom_cards) ;;
  (match custom with
   | [] => ret tt
   | _ :: _ => in_snd (call deck (add_cards custom))
   end) ;;;
  ret deck.
End Builder.
Arguments DeckBuilder Card : clear implicits.

Section Factories.
Context {G : Type} (next : G -> nat * G).
Context {Card : Type} `{CardFactory Card}.

(** A method that also uses the generator, called through a reference. *)
Definition call_random {B} (ref : nat) (m : M (G * Deck Card) B)
  : M (G * gmap nat (Deck Card)) B :=
  fun w =>
    match w.2 !! ref with
    | Some self =>
        let (r, w') := m (w.1, self) in (r, (w'.1, <[ref := w'.2]> w.2))
    | None => (Raise InvalidRef, w)
    end.

Definition create_standard_deck (shuffled : bool)
  : M (G * gmap nat (Deck Card)) nat :=
  deck <- in_snd (Deck_new true) ;;
  (if shuffled then call_random deck (shuffle next) else ret tt) ;;;
  ret deck.
End Factories.

Section DiscardPile.
Context {Card : Type} `{CardFactory Card}.

(** The truth value of a card object, which [card.py] decides: the test
    [if initial_card:] is false for [None] and for a card that is falsy. *)
Context (truth : Card -> bool).

Definition create_discard_pile (initial_card : option Card)
  : M (gmap nat (Deck Card)) nat :=
  discard_pile <- create_empty_deck ;;
  (match initial_card with
   | Some card =>
       if truth card then call discard_pile (add_card card) else ret tt
   | None => ret tt
   end) ;;;
  ret discard_pile.
End DiscardPile.

(** The cards of a deck created with [initialize] set or not. *)
Definition initial_cards {Card} `{CardFactory Card} (initialize : bool)
  : list Card :=
  if initialize
  then wild_cards_to_add (action_cards_to_add (number_cards_to_add []))
  else [].

(** The sum of the entries of a dictionary over a list of keys. *)
Definition dict_sum {K} `{Countable K} (keys : list K) (d : gmap K Z) : Z :=
  foldr (fun k acc => default 0 (d !! k) + acc) 0 keys.

(** * Properties *)

(** ** The monad and the deque *)

Lemma on_cards_run {Card B} (m : M (list Card) B) (d : Deck Card) :
  on_cards m d = ((m (_cards d)).1, mkDeck ((m (_cards d)).2)).
Proof. unfold on_cards, zoom. by destruct (m (_cards d)). Qed.

Lemma for_each_append {A} (xs d : list A) :
  for_each xs deque_append d = (Ret tt, d ++ xs).
Proof.
  revert d. induction xs as [|x xs IH]; intros d; simpl.
  - by rewrite app_nil_r.
  - unfold bind, deque_append at 1. rewrite IH. by rewrite <- app_assoc.
Qed.

Lemma deque_extend_run {A} (xs d : list A) :
  deque_extend xs d = (Ret tt, d ++ xs).
Proof. apply for_each_append. Qed.

Lemma add_cards_run {Card} (cards : list Card) (d : Deck Card) :
  add_cards cards d = (Ret tt, mkDeck (_cards d ++ cards)).
Proof. unfold add_cards. by rewrite on_cards_run, deque_extend_run. Qed.

Lemma for_each_appendleft {Card} (xs : list Card) (d : Deck Card) :
  for_each xs (fun card => on_cards (deque_appendleft card)) d
  = (Ret tt, mkDeck (reverse xs ++ _cards d)).
Proof.
  revert d. induction xs as [|x xs IH]; intros [c]; simpl; [done|].
  unfold bind. rewrite on_cards_run. simpl. rewrite IH. simpl.
  by rewrite reverse_cons, <- app_assoc.
Qed.

Lemma add_cards_to_top_run {Card} (cards : list Card) (d : Deck Card) :
  add_cards_to_top cards d = (Ret tt, mkDeck (cards ++ _cards d)).
Proof.
  unfold add_cards_to_top. by rewrite for_each_appendleft, reverse_involutive.
Qed.

(** The comprehension of [draw] pops the first [n] cards, whatever the
    range counts from. *)
Lemma popleft_comp {Card} (n : nat) (m : Z) (c : list Card) :
  (n <= length c)%nat ->
  list_comp (seqZ m (Z.of_nat n)) (fun _ => on_cards deque_popleft) (mkDeck c)
  = (Ret (take n c), mkDeck (drop n c)).
Proof.
  revert m c. induction n as [|n IH]; intros m c Hn.
  - by rewrite take_0, drop_0.
  - destruct c as [|x c]; simpl in Hn; [lia|].
    rewrite seqZ_cons by lia.
    replace (Z.pred (Z.of_nat (S n))) with (Z.of_nat n) by lia.
    simpl. unfold bind at 1. rewrite on_cards_run. simpl.
    unfold bind at 1. rewrite IH by lia. done.
Qed.

Lemma draw_ok {Card} (d : Deck Card) (count : Z) :
  0 <= count <= len (_cards d) ->
  draw count d
  = (Ret (take (Z.to_nat count) (_cards d)),
     mkDeck (drop (Z.to_nat count) (_cards d))).
Proof.
  intros Hc. destruct d as [c]. unfold draw, len in *. simpl in *.
  destruct (Z.ltb_spec count 0); [lia|].
  unfold bind. rewrite on_cards_run. simpl. unfold len.
  destruct (Z.gtb_spec count (Z.of_nat (length c))); [lia|].
  unfold range. rewrite <- (Z2Nat.id count) at 1 by lia.
  apply popleft_comp. lia.
Qed.

Lemma draw_error {Card} (d : Deck Card) (count : Z) :
  count < 0 \/ count > len (_cards d) ->
  draw count d = (Raise ValueError, d).
Proof.
  intros Hc. destruct d as [c]. unfold draw. simpl in *.
  destruct (Z.ltb_spec count 0); [done|].
  unfold bind. rewrite on_cards_run. simpl.
  destruct (Z.gtb_spec count (len c)); [done|lia].
Qed.

Lemma peek_ok {Card} (d : Deck Card) (count : Z) :
  0 <= count <= len (_cards d) ->
  peek count d = (Ret (take (Z.to_nat count) (_cards d)), d).
Proof.
  intros Hc. destruct d as [c]. unfold peek. simpl in *.
  destruct (Z.ltb_spec count 0); [lia|].
  unfold bind. rewrite on_cards_run. simpl.
  destruct (Z.gtb_spec count (len c)); [lia|].
  unfold on_cards, zoom, ret, slice_to. simpl.
  destruct (Z.leb_spec 0 count); [done|lia].
Qed.

Lemma peek_error {Card} (d : Deck Card) (count : Z) :
  count < 0 \/ count > len (_cards d) ->
  peek count d = (Raise ValueError, d).
Proof.
  intros Hc. destruct d as [c]. unfold peek. simpl in *.
  destruct (Z.ltb_spec count 0); [done|].
  unfold bind. rewrite on_cards_run. simpl.
  destruct (Z.gtb_spec count (len c)); [done|lia].
Qed.

(** ** The deck contract *)

(** The scenario of the specification: [add_cards [A; B; C]], [draw 1],
    [size], [add_to_top D], [draw 2]. *)
Example scenario_add_draw :
  (add_cards [1; 2; 3] ;;; a <- draw 1 ;; n <- size ;;
   add_to_top 4 ;;; b <- draw 2 ;; ret (a, n, b)) (mkDeck [])
  = (Ret ([1], 2, [4; 2]), mkDeck [3]).
Proof. reflexivity. Qed.

Example draw_too_many :
  draw 4 (mkDeck [1; 2; 3]) = (Raise ValueError, mkDeck [1; 2; 3]).
Proof. reflexivity. Qed.

Example rotate_right_one :
  rotate 1 (mkDeck [1; 2; 3]) = (Ret tt, mkDeck [3; 1; 2]).
Proof. reflexivity. Qed.

Example rotate_left_seven :
  rotate (-7) (mkDeck [1; 2; 3]) = (Ret tt, mkDeck [2; 3; 1]).
Proof. reflexivity. Qed.

Example shuffle_with_lcg :
  shuffle lcg_next (1%nat, mkDeck [1; 2; 3; 4; 5])
  = (Ret tt, (805%nat, mkDeck [4; 2; 1; 3; 5])).
Proof. reflexivity. Qed.

(** C1. After [add_cards_to_top cards] the deck reads, top to bottom, as the
    input list in its own order followed by the previous contents; adding
    [[c1; c2]] and then drawing two cards returns [[c1; c2]] and leaves the
    deck as it was. *)
Theorem add_cards_to_top_keeps_input_order {Card} (cards : list Card) (d : Deck Card) :
  add_cards_to_top cards d = (Ret tt, mkDeck (cards ++ _cards d))
  /\ forall c1 c2 : Card,
       (add_cards_to_top [c1; c2] ;;; draw 2) d = (Ret [c1; c2], d).
Proof.
  split; [apply add_cards_to_top_run|].
  intros c1 c2. unfold bind. rewrite add_cards_to_top_run.
  rewrite draw_ok by (unfold len; simpl; lia).
  by destruct d.
Qed.

(** C3. [draw count] and [peek count] raise exactly when [count < 0] or
    [count > n]; what they raise is [ValueError], and the deck after the
    raise is the deck before it. *)
Theorem draw_peek_raise_iff_out_of_range {Card} (d : Deck Card) (count : Z) :
  ((exists e, (draw count d).1 = Raise e)
     <-> (count < 0 \/ count > len (_cards d)))
  /\ ((exists e, (peek count d).1 = Raise e)
        <-> (count < 0 \/ count > len (_cards d)))
  /\ (forall e, (draw count d).1 = Raise e ->
        e = ValueError /\ (draw count d).2 = d)
  /\ (forall e, (peek count d).1 = Raise e ->
        e = ValueError /\ (peek count d).2 = d).
Proof.
  destruct (decide (count < 0 \/ count > len (_cards d))) as [Hout|Hin].
  - rewrite (draw_error d count Hout), (peek_error d count Hout). simpl.
    repeat split; eauto; congruence.
  - assert (0 <= count <= len (_cards d)) as Hc by lia.
    rewrite (draw_ok d count Hc), (peek_ok d count Hc). simpl.
    repeat split; try tauto; try congruence; intros [e He]; congruence.
Qed.

(** C4. For [0 <= count <= n], [draw count] returns the first [count]
    cards in top-to-bottom order and leaves the others in their order: the
    old contents are the drawn cards followed by the remaining ones, the
    result has [count] cards and the deck [n - count]; [draw 0] returns the
    empty list and changes nothing. *)
Theorem draw_returns_top_cards {Card} (d : Deck Card) (count : Z)
    (Hcount : 0 <= count <= len (_cards d)) :
  let drawn := take (Z.to_nat count) (_cards d) in
  let rest := drop (Z.to_nat count) (_cards d) in
  draw count d = (Ret drawn, mkDeck rest)
  /\ _cards d = drawn ++ rest
  /\ len drawn = count
  /\ len rest = len (_cards d) - count
  /\ draw 0 d = (Ret [], d).
Proof.
  intros drawn rest. subst drawn rest. unfold len in *.
  split; [by apply draw_ok|].
  split; [by rewrite take_drop|].
  split; [rewrite length_take; lia|].
  split; [rewrite length_drop; lia|].
  rewrite draw_ok by (unfold len; lia). by destruct d.
Qed.

Lemma draw_returns_top_cards_witness :
  draw 2 (mkDeck [10; 20; 30]) = (Ret [10; 20], mkDeck [30])
  /\ [10; 20; 30] = [10; 20] ++ [30]
  /\ len [10; 20] = 2
  /\ len [30] = len [10; 20; 30] - 2
  /\ draw 0 (mkDeck [10; 20; 30]) = (Ret [], mkDeck [10; 20; 30]).
Proof.
  apply (draw_returns_top_cards (mkDeck [10; 20; 30]) 2).
  unfold len. simpl. lia.
Defined.

(** C5. [draw_one] on an empty deck returns [None] without raising and
    leaves the deck empty; on a deck with top card [c] it returns [c] and
    leaves the cards below it, in order, one card fewer. *)
Theorem draw_one_none_or_top {Card} (c : Card) (rest : list Card) :
  draw_one (mkDeck (@nil Card)) = (Ret None, mkDeck [])
  /\ draw_one (mkDeck (c :: rest)) = (Ret (Some c), mkDeck rest)
  /\ len rest = len (c :: rest) - 1.
Proof.
  split; [done|]. split.
  - unfold draw_one, is_empty, bind, on_cards, zoom, ret, deque_len. simpl.
    by destruct (Z.eqb_spec (len (c :: rest)) 0) as [Hz|_];
      [unfold len in Hz; simpl in Hz; lia|].
  - unfold len. simpl. lia.
Qed.

(** C6. For [0 <= count <= n], [peek count] leaves the deck as it is and
    returns what [draw count] returns; drawing [count] cards and putting the
    drawn list back with [add_cards_to_top] gives the original deck. *)
Theorem peek_draw_round_trip {Card} (d : Deck Card) (count : Z)
    (Hcount : 0 <= count <= len (_cards d)) :
  (peek count d).2 = d
  /\ (peek count d).1 = (draw count d).1
  /\ (drawn <- draw count ;; add_cards_to_top drawn) d = (Ret tt, d).
Proof.
  rewrite peek_ok by done. unfold bind. rewrite draw_ok by done.
  rewrite add_cards_to_top_run. simpl. rewrite take_drop.
  by destruct d.
Qed.

Lemma peek_draw_round_trip_witness :
  (peek 2 (mkDeck [10; 20; 30])).2 = mkDeck [10; 20; 30]
  /\ (peek 2 (mkDeck [10; 20; 30])).1 = (draw 2 (mkDeck [10; 20; 30])).1
  /\ (drawn <- draw 2 ;; add_cards_to_top drawn) (mkDeck [10; 20; 30])
     = (Ret tt, mkDeck [10; 20; 30]).
Proof.
  apply (peek_draw_round_trip (mkDeck [10; 20; 30]) 2).
  unfold len. simpl. lia.
Defined.

(** ** Rotation *)

Section Rotation.
Context {A : Type}.
Implicit Types (l a b : list A) (n m : nat).

Lemma left_steps_app a b :
  repeat_steps (length a) rotate_left_step (a ++ b) = (Ret tt, b ++ a).
Proof.
  revert b. induction a as [|x a IH]; intros b; simpl.
  - by rewrite app_nil_r.
  - unfold bind at 1. unfold rotate_left_step, bind, deque_append. simpl.
    rewrite <- app_assoc, IH. by rewrite <- app_assoc.
Qed.

Lemma right_step_snoc l x :
  rotate_right_step (l ++ [x]) = (Ret tt, x :: l).
Proof.
  unfold rotate_right_step, bind, deque_pop.
  by rewrite last_snoc, removelast_last.
Qed.

Lemma right_steps_app a b :
  repeat_steps (length b) rotate_right_step (a ++ b) = (Ret tt, b ++ a).
Proof.
  revert a. induction b as [|x b IH] using rev_ind; intros a.
  - by rewrite app_nil_r.
  - rewrite length_app, Nat.add_1_r. simpl. unfold bind at 1.
    rewrite (app_assoc a b [x]), right_step_snoc.
    rewrite app_comm_cons, (IH (x :: a)). by rewrite <- app_assoc.
Qed.

Lemma repeat_steps_add n m (step : M (list A) unit) l :
  repeat_steps (n + m) step l
  = (repeat_steps n step ;;; repeat_steps m step) l.
Proof.
  revert l. induction n as [|n IH]; intros l; simpl; [done|].
  unfold bind in *. destruct (step l) as [[[]|e] l']; [|done].
  apply IH.
Qed.

(** [length l] steps in either direction bring the deque back. *)
Lemma left_cycle l : repeat_steps (length l) rotate_left_step l = (Ret tt, l).
Proof.
  pose proof (left_steps_app l []) as E. by rewrite app_nil_r in E.
Qed.

Lemma right_cycle l : repeat_steps (length l) rotate_right_step l = (Ret tt, l).
Proof.
  pose proof (right_steps_app [] l) as E. by rewrite app_nil_r in E.
Qed.

Lemma cycles_then_steps (step : M (list A) unit) l q r :
  repeat_steps (length l) step l = (Ret tt, l) ->
  repeat_steps (q * length l + r) step l = repeat_steps r step l.
Proof.
  intros Hc. induction q as [|q IH]; simpl; [done|].
  rewrite <- Nat.add_assoc, repeat_steps_add. unfold bind.
  by rewrite Hc.
Qed.

Lemma steps_mod (step : M (list A) unit) l n :
  l <> [] ->
  repeat_steps (length l) step l = (Ret tt, l) ->
  repeat_steps n step l = repeat_steps (n mod length l) step l.
Proof.
  intros Hl Hc.
  assert (length l <> 0)%nat as HN by (by destruct l).
  rewrite (Nat.div_mod n (length l) HN) at 1.
  rewrite (Nat.mul_comm (length l)). by apply cycles_then_steps.
Qed.

Lemma left_steps_closed l r :
  (r <= length l)%nat ->
  repeat_steps r rotate_left_step l = (Ret tt, drop r l ++ take r l).
Proof.
  intros Hr. rewrite <- (take_drop r l) at 1.
  replace r with (length (take r l)) at 1 by (rewrite length_take; lia).
  apply left_steps_app.
Qed.

Lemma right_steps_closed l r :
  (r <= length l)%nat ->
  repeat_steps r rotate_right_step l
  = (Ret tt, drop (length l - r) l ++ take (length l - r) l).
Proof.
  intros Hr. rewrite <- (take_drop (length l - r) l) at 1.
  replace r with (length (drop (length l - r) l)) at 1
    by (rewrite length_drop; lia).
  apply right_steps_app.
Qed.

Lemma rotated_nil (k : Z) : rotated k (@nil A) = [].
Proof. unfold rotated. by rewrite drop_nil, take_nil. Qed.

Lemma length_rotated (k : Z) l : length (rotated k l) = length l.
Proof.
  unfold rotated. rewrite length_app, length_drop, length_take. lia.
Qed.

Lemma fits_ssize_t_spec (n : Z) :
  fits_ssize_t n = true <-> PY_SSIZE_T_MIN <= n <= PY_SSIZE_T_MAX.
Proof.
  unfold fits_ssize_t. rewrite andb_true_iff, !Z.leb_le. tauto.
Qed.

(** Outside the machine word [deque.rotate] raises and changes nothing. *)
Lemma deque_rotate_overflow (n : Z) l :
  ~ (PY_SSIZE_T_MIN <= n <= PY_SSIZE_T_MAX) ->
  deque_rotate n l = (Raise OverflowError, l).
Proof.
  intros Hn. unfold deque_rotate.
  destruct (fits_ssize_t n) eqn:E; [|done].
  by apply fits_ssize_t_spec in E.
Qed.

(** Inside it, [deque.rotate] does not raise and computes [rotated]. *)
Lemma deque_rotate_run (n : Z) l :
  PY_SSIZE_T_MIN <= n <= PY_SSIZE_T_MAX ->
  deque_rotate n l = (Ret tt, rotated n l).
Proof.
  intros Hn. apply fits_ssize_t_spec in Hn.
  unfold deque_rotate. rewrite Hn. cbn [negb].
  destruct l as [|x l0] eqn:El; [by rewrite rotated_nil|]. rewrite <- El.
  assert (l <> []) as Hl by (by subst).
  assert (0 < len l) as HN by (subst; unfold len; simpl; lia).
  unfold bind, deque_len.
  destruct (Z.eqb_spec (len l) 0); [lia|].
  pose proof (Z.mod_pos_bound n (len l) HN) as Hj.
  unfold rotated, len in *.
  assert (Z.of_nat (length l) <> 0) as HN0 by lia.
  destruct (Z.leb_spec 0 n).
  - rewrite (steps_mod _ l (Z.to_nat n) Hl (right_cycle l)).
    assert (Z.to_nat n mod length l = Z.to_nat (n mod Z.of_nat (length l)))%nat
      as -> by (apply Nat2Z.inj; rewrite Nat2Z.inj_mod, !Z2Nat.id; lia).
    apply right_steps_closed. lia.
  - rewrite (steps_mod _ l (Z.to_nat (- n)) Hl (left_cycle l)).
    assert (Z.of_nat (Z.to_nat (- n) mod length l)
            = (- n) mod Z.of_nat (length l)) as Hm
      by (rewrite Nat2Z.inj_mod, Z2Nat.id; lia).
    rewrite left_steps_closed by (apply Nat.lt_le_incl, Nat.mod_upper_bound; lia).
    f_equal.
    destruct (Z.eq_dec (n mod Z.of_nat (length l)) 0) as [Hz|Hnz].
    + rewrite (Z.mod_opp_l_z _ _ HN0 Hz) in Hm.
      assert (Z.to_nat (- n) mod length l = 0)%nat as -> by lia.
      rewrite Hz. change (Z.to_nat 0) with 0%nat.
      rewrite Nat.sub_0_r, drop_all, firstn_all, drop_0, take_0.
      by rewrite app_nil_r.
    + rewrite (Z.mod_opp_l_nz _ _ HN0 Hnz) in Hm.
      by replace (length l - Z.to_nat (n mod Z.of_nat (length l)))%nat
        with (Z.to_nat (- n) mod length l)%nat by lia.
Qed.

Lemma rotated_multiple (n : Z) l :
  n mod len l = 0 -> rotated n l = l.
Proof.
  intros Hz. unfold rotated. rewrite Hz, Nat.sub_0_r. simpl.
  by rewrite drop_all, firstn_all.
Qed.

Lemma rotated_mod (n : Z) l : rotated (n mod len l) l = rotated n l.
Proof.
  unfold rotated. destruct (Z.eq_dec (len l) 0) as [Hz|Hnz].
  - by rewrite Hz, !Z.mod_0_r.
  - by rewrite Z.mod_mod.
Qed.

Lemma rotated_opp (n : Z) l : rotated (- n) (rotated n l) = l.
Proof.
  destruct (Z.eq_dec (len l) 0) as [Hz|Hnz].
  { unfold len in Hz. destruct l; [|simpl in Hz; lia]. by rewrite !rotated_nil. }
  assert (0 < len l) as HN by (unfold len in *; lia).
  pose proof (Z.mod_pos_bound n (len l) HN) as Hj.
  destruct (Z.eq_dec (n mod len l) 0) as [Hz|Hjnz].
  - rewrite (rotated_multiple n l Hz). apply rotated_multiple.
    by apply Z.mod_opp_l_z.
  - unfold rotated at 1.
    assert (len (rotated n l) = len l) as ->
      by (unfold len; by rewrite length_rotated).
    rewrite length_rotated, (Z.mod_opp_l_nz _ _ Hnz Hjnz).
    unfold rotated, len in *.
    set (j := Z.to_nat (n mod Z.of_nat (length l))) in *.
    replace (length l - Z.to_nat (Z.of_nat (length l) - n mod Z.of_nat (length l)))%nat
      with (length (drop (length l - j) l))
      by (rewrite length_drop; subst j; lia).
    rewrite drop_app_length, take_app_length. apply take_drop.
Qed.
End Rotation.

Lemma rotate_run {Card} (k : Z) (d : Deck Card) :
  PY_SSIZE_T_MIN <= k <= PY_SSIZE_T_MAX ->
  rotate k d = (Ret tt, mkDeck (rotated k (_cards d))).
Proof.
  intros Hk. unfold rotate. by rewrite on_cards_run, deque_rotate_run.
Qed.

Lemma rotate_overflow {Card} (k : Z) (d : Deck Card) :
  ~ (PY_SSIZE_T_MIN <= k <= PY_SSIZE_T_MAX) ->
  rotate k d = (Raise OverflowError, d).
Proof.
  intros Hk. unfold rotate. rewrite on_cards_run, deque_rotate_overflow by done.
  by destruct d.
Qed.

(** C8 as stated fails: [rotate] raises [OverflowError] for a count that
    does not fit a machine word, here [2^63], and leaves the deck as it is;
    and [rotate k] followed by [rotate (- k)] does not restore the deck at
    [k = - 2^63], where the first call rotates and the second raises. *)
Lemma rotate_fails_outside_machine_word :
  rotate 9223372036854775808 (mkDeck [1; 2; 3])
  = (Raise OverflowError, mkDeck [1; 2; 3])
  /\ rotate 9223372036854775808 (mkDeck (@nil Z))
     = (Raise OverflowError, mkDeck [])
  /\ (rotate (-9223372036854775808) ;;; rotate (- -9223372036854775808))
       (mkDeck [1; 2; 3])
     = (Raise OverflowError, mkDeck [3; 1; 2])
  /\ ~ (forall (d : Deck Z) (k : Z),
           (exists d', rotate k d = (Ret tt, d'))
           /\ (rotate k ;;; rotate (- k)) d = (Ret tt, d)).
Proof.
  split_and!.
  - reflexivity.
  - reflexivity.
  - unfold bind. rewrite rotate_run by (by vm_compute).
    rewrite rotate_overflow by (by vm_compute; intros [_ Hle]; apply Hle).
    reflexivity.
  - intros Hall.
    destruct (Hall (mkDeck [1; 2; 3]) 9223372036854775808) as [[d' E] _].
    discriminate E.
Qed.

(** C8, amended. For every integer [k] that fits a machine word
    ([- 2^63 <= k <= 2^63 - 1]) [rotate k] returns normally, also on an
    empty deck, and is the rotation by [k mod n]: two such counts that are
    equal modulo [n] rotate alike.  [rotate 0] leaves the order as it is,
    and so does [rotate n] when [n] fits; [rotate k] followed by
    [rotate (- k)] restores the order when [- k] fits too, that is for
    [k > - 2^63].  For a count outside the machine word [rotate] raises
    [OverflowError] and leaves the deck unchanged. *)
Theorem rotate_in_range_modular_invertible {Card} (d : Deck Card) (k : Z)
    (Hk : PY_SSIZE_T_MIN <= k <= PY_SSIZE_T_MAX) :
  rotate k d = (Ret tt, mkDeck (rotated k (_cards d)))
  /\ rotate k (mkDeck (@nil Card)) = (Ret tt, mkDeck [])
  /\ (forall k' : Z,
        PY_SSIZE_T_MIN <= k' <= PY_SSIZE_T_MAX ->
        k' mod len (_cards d) = k mod len (_cards d) ->
        rotate k' d = rotate k d)
  /\ rotate 0 d = (Ret tt, d)
  /\ (len (_cards d) <= PY_SSIZE_T_MAX ->
      rotate (len (_cards d)) d = (Ret tt, d))
  /\ (PY_SSIZE_T_MIN < k -> (rotate k ;;; rotate (- k)) d = (Ret tt, d))
  /\ (forall k' : Z,
        ~ (PY_SSIZE_T_MIN <= k' <= PY_SSIZE_T_MAX) ->
        rotate k' d = (Raise OverflowError, d)).
Proof.
  assert (PY_SSIZE_T_MIN <= 0 <= PY_SSIZE_T_MAX) as H0 by (by vm_compute).
  split_and!.
  - by apply rotate_run.
  - rewrite rotate_run by done. cbn [_cards]. by rewrite rotated_nil.
  - intros k' Hk' Hmod. rewrite !rotate_run by done.
    by rewrite <- (rotated_mod k'), Hmod, rotated_mod.
  - rewrite rotate_run by done. rewrite rotated_multiple; [by destruct d|].
    destruct (Z.eq_dec (len (_cards d)) 0) as [->|?]; [by rewrite Z.mod_0_r|].
    by apply Z.mod_0_l.
  - intros Hlen. rewrite rotate_run
      by (split; [|done]; unfold len, PY_SSIZE_T_MIN; lia).
    rewrite rotated_multiple; [by destruct d|].
    destruct (Z.eq_dec (len (_cards d)) 0) as [Hz|?]; [by rewrite Hz|].
    by apply Z.mod_same.
  - intros Hmin. unfold bind. rewrite rotate_run by done.
    rewrite rotate_run by (unfold PY_SSIZE_T_MIN, PY_SSIZE_T_MAX in *; lia).
    cbn [_cards]. rewrite rotated_opp. by destruct d.
  - intros k' Hk'. by apply rotate_overflow.
Qed.

Lemma rotate_in_range_modular_invertible_witness :
  rotate 7 (mkDeck [10; 20; 30]) = (Ret tt, mkDeck (rotated 7 [10; 20; 30]))
  /\ rotate 7 (mkDeck (@nil Z)) = (Ret tt, mkDeck [])
  /\ (forall k' : Z,
        PY_SSIZE_T_MIN <= k' <= PY_SSIZE_T_MAX ->
        k' mod len [10; 20; 30] = 7 mod len [10; 20; 30] ->
        rotate k' (mkDeck [10; 20; 30]) = rotate 7 (mkDeck [10; 20; 30]))
  /\ rotate 0 (mkDeck [10; 20; 30]) = (Ret tt, mkDeck [10; 20; 30])
  /\ (len [10; 20; 30] <= PY_SSIZE_T_MAX ->
      rotate (len [10; 20; 30]) (mkDeck [10; 20; 30])
      = (Ret tt, mkDeck [10; 20; 30]))
  /\ (PY_SSIZE_T_MIN < 7 ->
      (rotate 7 ;;; rotate (- 7)) (mkDeck [10; 20; 30])
      = (Ret tt, mkDeck [10; 20; 30]))
  /\ (forall k' : Z,
        ~ (PY_SSIZE_T_MIN <= k' <= PY_SSIZE_T_MAX) ->
        rotate k' (mkDeck [10; 20; 30])
        = (Raise OverflowError, mkDeck [10; 20; 30])).
Proof.
  apply (rotate_in_range_modular_invertible (mkDeck [10; 20; 30]) 7).
  unfold PY_SSIZE_T_MIN, PY_SSIZE_T_MAX. lia.
Defined.

(** ** Shuffling *)
Section ShuffleFacts.
Context {G : Type} (next : G -> nat * G).
Context {A : Type}.
Implicit Types (x : list A) (g : G).

Lemma randbelow_run (n : nat) g :
  (0 < n)%nat ->
  exists j g', randbelow next n g = (Ret j, g') /\ (j < n)%nat.
Proof.
  intros Hn. unfold randbelow. destruct (next g) as [r g'].
  exists (r mod n)%nat, g'. split; [done|].
  apply Nat.mod_upper_bound. lia.
Qed.

Lemma swap_items_run (i j : nat) x g :
  (i < length x)%nat -> (j < length x)%nat ->
  exists x', swap_items (G := G) i j x g = (Ret x', g) /\ x' ≡ₚ x.
Proof.
  intros Hi Hj. unfold swap_items.
  destruct (lookup_lt_is_Some_2 x j Hj) as [xj Ej].
  destruct (lookup_lt_is_Some_2 x i Hi) as [xi Ei].
  rewrite Ej, Ei. eexists. split; [done|].
  by apply Permutation_insert_swap.
Qed.

(** The loop of [random.shuffle], for any indices inside the list. *)
Lemma shuffle_loop (idx : list nat) x g :
  Forall (fun i => (i < length x)%nat) idx ->
  exists x' g',
    for_fold idx (fun x i => j <- randbelow next (i + 1) ;; swap_items i j x) x g
    = (Ret x', g')
    /\ x' ≡ₚ x.
Proof.
  revert x g. induction idx as [|i idx IH]; intros x g Hidx; simpl.
  - by exists x, g.
  - apply Forall_cons in Hidx as [Hi Hidx].
    unfold bind at 1 2.
    destruct (randbelow_run (i + 1) g ltac:(lia)) as (j & g1 & -> & Hj).
    destruct (swap_items_run i j x g1 Hi ltac:(lia)) as (x1 & -> & Hp).
    destruct (IH x1 g1) as (x' & g' & -> & Hp').
    { rewrite (Permutation_length Hp). done. }
    exists x', g'. split; [done|]. by rewrite Hp'.
Qed.

Lemma random_shuffle_run x g :
  exists x' g', random_shuffle next x g = (Ret x', g') /\ x' ≡ₚ x.
Proof.
  apply shuffle_loop. apply Forall_forall. intros i Hi.
  apply elem_of_reverse, elem_of_seq in Hi. lia.
Qed.
End ShuffleFacts.

(** C7. Whatever the generator does, [shuffle] returns nothing and leaves
    in the same deck object a permutation of its cards: the cards as a
    multiset and their number are unchanged. *)
Theorem shuffle_permutes {G Card} (next : G -> nat * G) (g : G) (d : Deck Card) :
  exists (g' : G) (cards' : list Card),
    shuffle next (g, d) = (Ret tt, (g', mkDeck cards'))
    /\ cards' ≡ₚ _cards d
    /\ len cards' = len (_cards d).
Proof.
  destruct (random_shuffle_run next (_cards d) g) as (x' & g' & E & Hp).
  exists g', x'. split; [|split; [done|]].
  - unfold shuffle, bind, zoom, iter_list, on_cards, zoom, put. simpl.
    by rewrite E.
  - unfold len. by rewrite (Permutation_length Hp).
Qed.

(** ** Merging *)
Section StoreFacts.
Context {Card : Type} `{CardFactory Card}.
Implicit Types (h : gmap nat (Deck Card)) (self : Deck Card).

Lemma call_run {B} (ref : nat) (m : M (Deck Card) B) h self r self' :
  h !! ref = Some self ->
  m self = (r, self') ->
  call ref m h = (r, <[ref := self']> h).
Proof. intros Hl Hm. unfold call. by rewrite Hl, Hm. Qed.

Lemma iter_list_run self : iter_list self = (Ret (_cards self), self).
Proof. by destruct self. Qed.

Lemma size_run self : size self = (Ret (len (_cards self)), self).
Proof. by destruct self. Qed.

Lemma create_empty_deck_run h :
  create_empty_deck h = (Ret (fresh (dom h)), <[fresh (dom h) := mkDeck []]> h).
Proof. done. Qed.

Lemma fresh_ref_unused h : h !! fresh (dom h) = None.
Proof. apply not_elem_of_dom, is_fresh. Qed.

Lemma merge_decks_run h (deck1 deck2 : nat) (d1 d2 : Deck Card) :
  h !! deck1 = Some d1 ->
  h !! deck2 = Some d2 ->
  merge_decks deck1 deck2 h
  = (Ret (fresh (dom h)),
     <[fresh (dom h) := mkDeck (_cards d1 ++ _cards d2)]> h).
Proof.
  intros H1 H2. pose proof (fresh_ref_unused h) as Hnew.
  set (new := fresh (dom h)) in *.
  assert (deck1 <> new) as Hn1 by congruence.
  assert (deck2 <> new) as Hn2 by congruence.
  unfold merge_decks, bind. rewrite create_empty_deck_run. fold new.
  rewrite (call_run deck1 iter_list _ d1 _ d1 ltac:(by rewrite lookup_insert_ne)
             (iter_list_run d1)).
  rewrite (insert_id _ deck1 d1) by (by rewrite lookup_insert_ne).
  rewrite (call_run new (add_cards _) _ (mkDeck []) _ _
             ltac:(by rewrite lookup_insert_eq) (add_cards_run _ _)).
  rewrite insert_insert_eq.
  rewrite (call_run deck2 iter_list _ d2 _ d2 ltac:(by rewrite lookup_insert_ne)
             (iter_list_run d2)).
  rewrite (insert_id _ deck2 d2) by (by rewrite lookup_insert_ne).
  rewrite (call_run new (add_cards _) _ _ _ _
             ltac:(by rewrite lookup_insert_eq) (add_cards_run _ _)).
  by rewrite insert_insert_eq.
Qed.
End StoreFacts.

(** C9. [merge_decks a b] returns a reference to a new deck, one the store
    did not hold, whose contents are the cards of [a] in order followed by
    the cards of [b] in order; nothing else in the store changes, so [a] and
    [b] are as before (also when they are the same deck).  The new deck has
    [size a + size b] cards, and drawing [size a] cards from it returns the
    contents of [a]. *)
Theorem merge_decks_appends_into_new_deck {Card} `{CardFactory Card}
    (h : gmap nat (Deck Card)) (a b : nat) (da db : Deck Card)
    (Ha : h !! a = Some da) (Hb : h !! b = Some db) :
  exists new : nat,
    let h' := <[new := mkDeck (_cards da ++ _cards db)]> h in
    merge_decks a b h = (Ret new, h')
    /\ h !! new = None
    /\ h' !! a = Some da
    /\ h' !! b = Some db
    /\ (call new size h').1 = Ret (len (_cards da) + len (_cards db))
    /\ (call new (draw (len (_cards da))) h').1 = Ret (_cards da).
Proof.
  exists (fresh (dom h)). pose proof (fresh_ref_unused h) as Hnew.
  set (new := fresh (dom h)) in *. intros h'.
  assert (h' !! new = Some (mkDeck (_cards da ++ _cards db))) as Hl
    by apply lookup_insert_eq.
  split_and!.
  - by apply merge_decks_run.
  - done.
  - subst h'. rewrite lookup_insert_ne; [done|congruence].
  - subst h'. rewrite lookup_insert_ne; [done|congruence].
  - rewrite (call_run new size h' _ _ _ Hl (size_run _)). simpl.
    unfold len. rewrite length_app. f_equal. lia.
  - erewrite (call_run new (draw _) h' _ _ _ Hl); [|apply draw_ok]; simpl.
    + unfold len. by rewrite Nat2Z.id, take_app_length.
    + unfold len. rewrite length_app. lia.
Qed.

Lemma merge_decks_appends_into_new_deck_witness :
  exists new : nat,
    let h' := <[new := mkDeck ([mkCard RED FIVE; mkCard BLUE SKIP]
                               ++ [mkCard WILD_COLOR WILD])]> two_decks in
    merge_decks 0 1 two_decks = (Ret new, h')
    /\ two_decks !! new = None
    /\ h' !! 0%nat = Some (mkDeck [mkCard RED FIVE; mkCard BLUE SKIP])
    /\ h' !! 1%nat = Some (mkDeck [mkCard WILD_COLOR WILD])
    /\ (call new size h').1 = Ret (2 + 1)
    /\ (call new (draw 2) h').1 = Ret [mkCard RED FIVE; mkCard BLUE SKIP].
Proof.
  apply (merge_decks_appends_into_new_deck two_decks 0 1
           (mkDeck [mkCard RED FIVE; mkCard BLUE SKIP])
           (mkDeck [mkCard WILD_COLOR WILD])); reflexivity.
Defined.

(** ** Card distribution *)
Section DistributionFacts.
Context {Card : Type} `{CardAPI Card}.
Implicit Types (acc : Distribution) (card : Card) (d : Deck Card).

(** The bucket a card falls in: the first predicate that holds, in the
    order number, action, wild. *)
Local Abbreviation in_number := (fun card : Card => is_number_card card).
Local Abbreviation in_action :=
  (fun card : Card => negb (is_number_card card) && is_action_card card).
Local Abbreviation in_wild :=
  (fun card : Card =>
     negb (is_number_card card) && negb (is_action_card card) && is_wild card).

Lemma dict_incr_run {K} `{Countable K} (k : K) (m : gmap K Z) (v : Z) d :
  m !! k = Some v ->
  dict_incr k m d = (Ret (<[k := v + 1]> m), d).
Proof. intros E. unfold dict_incr. by rewrite E. Qed.

Lemma lookup_incr {K} `{Countable K} (k k' : K) (m : gmap K Z) (v : Z) :
  m !! k = Some v ->
  <[k := v + 1]> m !! k'
  = (fun u => u + Z.b2z (bool_decide (k = k'))) <$> m !! k'.
Proof.
  intros E. destruct (decide (k = k')) as [<-|Hne].
  - by rewrite lookup_insert_eq, E, bool_decide_eq_true_2.
  - rewrite lookup_insert_ne, bool_decide_eq_false_2 by done.
    destruct (m !! k'); simpl; [f_equal; lia|done].
Qed.

(** One turn of the loop: no [KeyError] when both dictionaries hold every
    key, and exactly the counters of the card move. *)
Lemma count_card_run acc card d :
  (forall k, is_Some (by_color acc !! k)) ->
  (forall k, is_Some (by_label acc !! k)) ->
  exists acc',
    count_card acc card d = (Ret acc', d)
    /\ total acc' = total acc
    /\ number_cards acc' = number_cards acc + Z.b2z (in_number card)
    /\ action_cards acc' = action_cards acc + Z.b2z (in_action card)
    /\ wild_cards acc' = wild_cards acc + Z.b2z (in_wild card)
    /\ (forall k, by_color acc' !! k
                  = (fun u => u + Z.b2z (bool_decide (color card = k)))
                      <$> by_color acc !! k)
    /\ (forall k, by_label acc' !! k
                  = (fun u => u + Z.b2z (bool_decide (label card = k)))
                      <$> by_label acc !! k).
Proof.
  intros Hc Hl.
  destruct (Hc (color card)) as [vc Ec], (Hl (label card)) as [vl El].
  unfold count_card, bind.
  rewrite (dict_incr_run _ _ _ d Ec), (dict_incr_run _ _ _ d El).
  destruct (is_number_card card), (is_action_card card), (is_wild card);
    eexists; (split; [reflexivity|]); simpl;
    (split_and!; [done|lia|lia|lia
                 |intros k; by apply lookup_incr
                 |intros k; by apply lookup_incr]).
Qed.

Lemma count_loop (cards : list Card) acc d :
  (forall k, is_Some (by_color acc !! k)) ->
  (forall k, is_Some (by_label acc !! k)) ->
  exists acc',
    for_fold cards count_card acc d = (Ret acc', d)
    /\ total acc' = total acc
    /\ number_cards acc' = number_cards acc + count_if in_number cards
    /\ action_cards acc' = action_cards acc + count_if in_action cards
    /\ wild_cards acc' = wild_cards acc + count_if in_wild cards
    /\ (forall k, by_color acc' !! k
                  = (fun u => u + count_if (fun c => bool_decide (color c = k)) cards)
                      <$> by_color acc !! k)
    /\ (forall k, by_label acc' !! k
                  = (fun u => u + count_if (fun c => bool_decide (label c = k)) cards)
                      <$> by_label acc !! k).
Proof.
  revert acc. induction cards as [|card cards IH]; intros acc Hc Hl.
  - exists acc. simpl. split_and!; try done; try lia.
    + intros k. destruct (by_color acc !! k); simpl; [f_equal; lia|done].
    + intros k. destruct (by_label acc !! k); simpl; [f_equal; lia|done].
  - destruct (count_card_run acc card d Hc Hl)
      as (acc1 & E1 & Ht & Hn & Ha & Hw & Hbc & Hbl).
    destruct (IH acc1) as (acc' & E' & Ht' & Hn' & Ha' & Hw' & Hbc' & Hbl').
    { intros k. rewrite Hbc. by apply fmap_is_Some. }
    { intros k. rewrite Hbl. by apply fmap_is_Some. }
    exists acc'. simpl. unfold bind. rewrite E1.
    split_and!; try done; try lia.
    + intros k. rewrite Hbc', Hbc.
      destruct (by_color acc !! k); simpl; [f_equal; lia|done].
    + intros k. rewrite Hbl', Hbl.
      destruct (by_label acc !! k); simpl; [f_equal; lia|done].
Qed.

Lemma zero_dict_colors (k : CardColor) : zero_dict all_colors !! k = Some 0.
Proof. by destruct k. Qed.

Lemma zero_dict_labels (k : CardLabel) : zero_dict all_labels !! k = Some 0.
Proof. by destruct k. Qed.

(** [get_card_distribution] in closed form. *)
Lemma get_card_distribution_run d :
  exists dist,
    get_card_distribution d = (Ret dist, d)
    /\ total dist = len (_cards d)
    /\ number_cards dist = count_if in_number (_cards d)
    /\ action_cards dist = count_if in_action (_cards d)
    /\ wild_cards dist = count_if in_wild (_cards d)
    /\ (forall k, by_color dist !! k
                  = Some (count_if (fun c => bool_decide (color c = k)) (_cards d)))
    /\ (forall k, by_label dist !! k
                  = Some (count_if (fun c => bool_decide (label c = k)) (_cards d))).
Proof.
  set (acc := mkDistribution (len (_cards d)) 0 0 0
                (zero_dict all_colors) (zero_dict all_labels)).
  destruct (count_loop (_cards d) acc d)
    as (dist & E & Ht & Hn & Ha & Hw & Hbc & Hbl).
  { intros k. simpl. by rewrite zero_dict_colors. }
  { intros k. simpl. by rewrite zero_dict_labels. }
  exists dist. split_and!; try done.
  - unfold get_card_distribution, bind.
    rewrite size_run, iter_list_run. exact E.
  - intros k. rewrite Hbc. simpl. by rewrite zero_dict_colors.
  - intros k. rewrite Hbl. simpl. by rewrite zero_dict_labels.
Qed.

(** Each card is in at most one bucket. *)
Lemma buckets_le (cards : list Card) :
  count_if in_number cards + count_if in_action cards + count_if in_wild cards
  <= len cards.
Proof.
  unfold len. induction cards as [|card cards IH]; simpl; [lia|].
  destruct (is_number_card card), (is_action_card card), (is_wild card);
    simpl; lia.
Qed.

Lemma buckets_eq_iff (cards : list Card) :
  count_if in_number cards + count_if in_action cards + count_if in_wild cards
  = len cards
  <-> Forall (fun card =>
                is_number_card card || is_action_card card || is_wild card = true)
             cards.
Proof.
  induction cards as [|card cards IH]; [by split|].
  rewrite Forall_cons, <- IH. pose proof (buckets_le cards) as Hle.
  unfold len in *. simpl.
  destruct (is_number_card card), (is_action_card card), (is_wild card);
    simpl; split; try (intros [? ?]); try split; try done; lia.
Qed.
End DistributionFacts.

(** C10. For every deck, [get_card_distribution] returns normally, leaves
    the deck as it is, and counts each card in the first bucket whose
    predicate holds, in the order number, action, wild; so the three counts
    add up to at most [total], and to [total] exactly when every card
    satisfies one of the three predicates. *)
Theorem distribution_first_matching_bucket {Card} `{CardAPI Card} (d : Deck Card) :
  exists dist : Distribution,
    get_card_distribution d = (Ret dist, d)
    /\ total dist = len (_cards d)
    /\ number_cards dist = count_if is_number_card (_cards d)
    /\ action_cards dist
       = count_if (fun c => negb (is_number_card c) && is_action_card c) (_cards d)
    /\ wild_cards dist
       = count_if (fun c => negb (is_number_card c) && negb (is_action_card c)
                            && is_wild c) (_cards d)
    /\ number_cards dist + action_cards dist + wild_cards dist <= total dist
    /\ (number_cards dist + action_cards dist + wild_cards dist = total dist
        <-> Forall (fun c => is_number_card c || is_action_card c || is_wild c = true)
                   (_cards d)).
Proof.
  destruct (get_card_distribution_run d) as (dist & E & Ht & Hn & Ha & Hw & _).
  exists dist. rewrite Ht, Hn, Ha, Hw.
  split_and!; try done.
  - apply buckets_le.
  - apply buckets_eq_iff.
Qed.

(** ** The standard deck *)
Section StandardDeckFacts.
Context {Card : Type} `{CardFactoryLaws Card}.

(** The cards of the standard deck are the answers to the standard
    requests, in order. *)
Lemma standard_cards_build :
  wild_cards_to_add (action_cards_to_add (number_cards_to_add []))
  = build <$> standard_requests.
Proof. reflexivity. Qed.

Lemma new_Deck_standard :
  new_Deck true = (Ret tt, mkDeck (build <$> standard_requests)).
Proof.
  unfold new_Deck, Deck_init, _initialize_standard_deck, bind, put, clear.
  by rewrite !on_cards_run, deque_extend_run.
Qed.

Lemma standard_requests_documented :
  Forall (fun r => documented r = true) standard_requests.
Proof.
  apply List.Forall_forall, List.forallb_forall. by vm_compute.
Qed.

(** Under the factory laws, what the deck reads of a built card is
    decided by the request. *)
Lemma documented_number c n : documented (NumberCard c n) = true -> 0 <= n <= 9.
Proof. simpl. intros [?%Z.leb_le ?%Z.leb_le]%andb_prop. lia. Qed.

Lemma documented_action c a : documented (ActionCard c a) = true -> a ∈ _ACTIONS.
Proof. apply bool_decide_eq_true_1. Qed.

Lemma documented_wild w : documented (WildCard w) = true -> w ∈ _WILDS.
Proof. apply bool_decide_eq_true_1. Qed.

Lemma build_color r : documented r = true -> color (build r) = request_color r.
Proof.
  destruct r as [c n|c a|w]; intros Hd; simpl.
  - by apply number_card_color, documented_number with c.
  - by apply action_card_color, documented_action with c.
  - by apply wild_card_color, documented_wild.
Qed.

Lemma build_number r :
  documented r = true -> is_number_card (build r) = is_number_request r.
Proof.
  destruct r as [c n|c a|w]; intros Hd; simpl.
  - by apply number_card_is_number, documented_number with c.
  - by apply action_card_not_number, documented_action with c.
  - by apply wild_card_not_number, documented_wild.
Qed.

Lemma build_action r :
  documented r = true ->
  negb (is_number_card (build r)) && is_action_card (build r)
  = is_action_request r.
Proof.
  intros Hd. rewrite build_number by done.
  destruct r as [c n|c a|w]; simpl; [done| |].
  - by apply action_card_is_action, documented_action with c.
  - by apply wild_card_not_action, documented_wild.
Qed.

Lemma build_wild r :
  documented r = true ->
  negb (is_number_card (build r)) && negb (is_action_card (build r))
    && is_wild (build r)
  = is_wild_request r.
Proof.
  intros Hd. rewrite build_number by done.
  destruct r as [c n|c a|w]; simpl; [done| |].
  - by rewrite action_card_is_action by (by apply documented_action with c).
  - rewrite wild_card_not_action by (by apply documented_wild).
    by apply wild_card_is_wild, documented_wild.
Qed.

Lemma count_if_build (p : Card -> bool) (q : card_request -> bool) rs :
  Forall (fun r => documented r = true) rs ->
  (forall r, documented r = true -> p (build r) = q r) ->
  count_if p (build <$> rs) = count_if q rs.
Proof.
  intros Hrs Hpq. induction Hrs as [|r rs Hr _ IH]; [done|].
  rewrite fmap_cons. cbn [count_if]. by rewrite Hpq, IH.
Qed.

(** The distribution of the standard deck, read off the requests. *)
Lemma standard_distribution_by_request :
  exists dist : Distribution,
    get_card_distribution (mkDeck (build <$> standard_requests))
    = (Ret dist, mkDeck (build <$> standard_requests))
    /\ total dist = len standard_requests
    /\ number_cards dist = count_if is_number_request standard_requests
    /\ action_cards dist = count_if is_action_request standard_requests
    /\ wild_cards dist = count_if is_wild_request standard_requests
    /\ (forall k, by_color dist !! k
                  = Some (count_if (fun r => bool_decide (request_color r = k))
                                   standard_requests)).
Proof.
  pose proof standard_requests_documented as Hdoc.
  destruct (get_card_distribution_run (mkDeck (build <$> standard_requests)))
    as (dist & E & Ht & Hn & Ha & Hw & Hbc & _).
  cbn [_cards] in *.
  rewrite (count_if_build (fun c => is_number_card c) _ _ Hdoc build_number) in Hn.
  rewrite (count_if_build _ _ _ Hdoc build_action) in Ha.
  rewrite (count_if_build _ _ _ Hdoc build_wild) in Hw.
  exists dist. split_and!; [exact E| |exact Hn|exact Ha|exact Hw|].
  - rewrite Ht. unfold len. by rewrite length_fmap.
  - intros k. rewrite Hbc. f_equal. apply count_if_build; [done|].
    intros r Hr. by rewrite build_color.
Qed.
End StandardDeckFacts.

(** The concrete card module satisfies the factory laws. *)
Lemma number_label_is_number (n : Z) :
  (label_index (number_label n) < 10)%nat.
Proof.
  unfold number_label. generalize (Z.to_nat n). intros k.
  do 9 (destruct k as [|k]; [simpl; lia|]). destruct k; simpl; lia.
Qed.

#[global] Instance UnoCard_laws : CardFactoryLaws UnoCard.
Proof.
  split.
  - reflexivity.
  - intros c n _. apply bool_decide_eq_true_2, number_label_is_number.
  - reflexivity.
  - intros c a Ha. unfold _ACTIONS in Ha.
    rewrite !elem_of_cons, elem_of_nil in Ha.
    by destruct Ha as [->|[->|[->|[]]]].
  - intros c a Ha. by apply bool_decide_eq_true_2.
  - reflexivity.
  - intros w Hw. unfold _WILDS in Hw.
    rewrite !elem_of_cons, elem_of_nil in Hw.
    by destruct Hw as [->|[->|[]]].
  - intros w Hw. unfold _WILDS in Hw.
    rewrite !elem_of_cons, elem_of_nil in Hw.
    by destruct Hw as [->|[->|[]]].
  - intros w Hw. by apply bool_decide_eq_true_2.
Qed.

(** C2 as stated fails: with the concrete card module, the standard deck
    does not hold 27 cards of each of the four colours (it holds 25: one
    zero, eighteen other number cards and six action cards). *)
Lemma standard_deck_not_27_per_color :
  ~ exists (d : Deck UnoCard) (dist : Distribution),
      new_Deck true = (Ret tt, d)
      /\ size d = (Ret 108, d)
      /\ get_card_distribution d = (Ret dist, d)
      /\ total dist = 108
      /\ number_cards dist = 76
      /\ action_cards dist = 24
      /\ wild_cards dist = 8
      /\ by_color dist !! RED = Some 27
      /\ by_color dist !! BLUE = Some 27
      /\ by_color dist !! GREEN = Some 27
      /\ by_color dist !! YELLOW = Some 27.
Proof.
  intros (d & dist & Hd & _ & Hg & _ & _ & _ & _ & Hred & _).
  rewrite new_Deck_standard in Hd.
  assert (d = mkDeck (build <$> standard_requests)) as -> by congruence.
  destruct (standard_distribution_by_request (Card := UnoCard))
    as (dist0 & E & _ & _ & _ & _ & Hbc).
  rewrite E in Hg. assert (dist = dist0) as -> by congruence.
  rewrite Hbc in Hred. vm_compute in Hred. discriminate Hred.
Qed.

(** C2, amended. A deck created with [initialize=True] has 108 cards, and
    its distribution reports 76 number cards, 24 action cards, 8 wild cards
    and 25 cards for each of the four colours; the 8 wild cards are counted
    under the wild colour, outside the four colour totals. *)
Theorem standard_deck_distribution {Card} `{CardFactoryLaws Card} :
  exists (d : Deck Card) (dist : Distribution),
    new_Deck true = (Ret tt, d)
    /\ size d = (Ret 108, d)
    /\ get_card_distribution d = (Ret dist, d)
    /\ total dist = 108
    /\ number_cards dist = 76
    /\ action_cards dist = 24
    /\ wild_cards dist = 8
    /\ by_color dist !! RED = Some 25
    /\ by_color dist !! BLUE = Some 25
    /\ by_color dist !! GREEN = Some 25
    /\ by_color dist !! YELLOW = Some 25
    /\ by_color dist !! WILD_COLOR = Some 8.
Proof.
  destruct standard_distribution_by_request
    as (dist & E & Ht & Hn & Ha & Hw & Hbc).
  exists (mkDeck (build <$> standard_requests)), dist.
  rewrite size_run, Ht, Hn, Ha, Hw, !Hbc. cbn [_cards].
  assert (len (build (Card := Card) <$> standard_requests) = 108) as ->
    by (unfold len; by rewrite length_fmap).
  split_and!;
    [apply new_Deck_standard | reflexivity | exact E
    | vm_compute; reflexivity ..].
Qed.

Lemma standard_deck_distribution_witness :
  exists (d : Deck UnoCard) (dist : Distribution),
    new_Deck true = (Ret tt, d)
    /\ size d = (Ret 108, d)
    /\ get_card_distribution d = (Ret dist, d)
    /\ total dist = 108
    /\ number_cards dist = 76
    /\ action_cards dist = 24
    /\ wild_cards dist = 8
    /\ by_color dist !! RED = Some 25
    /\ by_color dist !! BLUE = Some 25
    /\ by_color dist !! GREEN = Some 25
    /\ by_color dist !! YELLOW = Some 25
    /\ by_color dist !! WILD_COLOR = Some 8.
Proof.
  apply (@standard_deck_distribution UnoCard _ _ UnoCard_laws).
Defined.

(** * Further properties of the deck *)

(** ** Adding and drawing *)

Lemma for_each_add_card {Card} (cards : list Card) (d : Deck Card) :
  for_each cards add_card d = (Ret tt, mkDeck (_cards d ++ cards)).
Proof.
  revert d. induction cards as [|c cards IH]; intros [l]; simpl.
  - by rewrite app_nil_r.
  - unfold bind, add_card at 1. rewrite on_cards_run. simpl.
    rewrite IH. simpl. by rewrite <- app_assoc.
Qed.

Lemma is_empty_run {Card} (d : Deck Card) :
  is_empty d = (Ret (bool_decide (_cards d = [])), d).
Proof.
  destruct d as [[|c l]]; [done|].
  unfold is_empty, bind, on_cards, zoom, ret, deque_len. simpl.
  by destruct (Z.eqb_spec (len (c :: l)) 0) as [Hz|_];
    [unfold len in Hz; simpl in Hz; lia|].
Qed.

Lemma draw_one_run {Card} (d : Deck Card) :
  draw_one d
  = match _cards d with
    | [] => (Ret None, d)
    | c :: rest => (Ret (Some c), mkDeck rest)
    end.
Proof.
  unfold draw_one, bind. rewrite is_empty_run.
  by destruct d as [[|c l]].
Qed.

(** [add_cards] puts the cards at the bottom in the order of the list, as
    adding them one by one with [add_card] does; the cards that were in the
    deck are drawn before them. *)
Theorem add_cards_queues_at_bottom {Card} (cards : list Card) (d : Deck Card) :
  add_cards cards d = (Ret tt, mkDeck (_cards d ++ cards))
  /\ for_each cards add_card d = add_cards cards d
  /\ (add_cards cards ;;; draw (len (_cards d))) d
     = (Ret (_cards d), mkDeck cards).
Proof.
  split_and!.
  - apply add_cards_run.
  - by rewrite for_each_add_card, add_cards_run.
  - unfold bind. rewrite add_cards_run, draw_ok; cbn [_cards].
    + unfold len. by rewrite Nat2Z.id, take_app_length, drop_app_length.
    + unfold len. rewrite length_app. lia.
Qed.

(** A card put on top with [add_to_top] is the next card drawn, and drawing
    it gives the deck back; [add_to_top] is [add_cards_to_top] of the
    one-card list. *)
Theorem add_to_top_is_drawn_next {Card} (card : Card) (d : Deck Card) :
  (add_to_top card ;;; draw_one) d = (Ret (Some card), d)
  /\ (add_to_top card ;;; draw 1) d = (Ret [card], d)
  /\ add_to_top card d = add_cards_to_top [card] d.
Proof.
  destruct d as [l]. split_and!; try done.
  unfold bind, add_to_top. rewrite on_cards_run.
  by rewrite draw_ok by (unfold len; simpl; lia).
Qed.

(** Two draws in a row take what one draw of the total takes: the results
    concatenate and the deck left is the same. *)
Theorem draw_twice_is_draw_sum {Card} (d : Deck Card) (m n : Z)
    (Hm : 0 <= m) (Hn : 0 <= n) (Hmn : m + n <= len (_cards d)) :
  (a <- draw m ;; b <- draw n ;; ret (a ++ b)) d = draw (m + n) d.
Proof.
  unfold bind. rewrite (draw_ok d m) by lia.
  rewrite draw_ok; cbn [_cards].
  - rewrite (draw_ok d (m + n)) by lia. unfold ret.
    rewrite Z2Nat.inj_add by lia.
    by rewrite drop_drop, take_take_drop.
  - unfold len in *. rewrite length_drop. lia.
Qed.

Lemma draw_twice_is_draw_sum_witness :
  (a <- draw 1 ;; b <- draw 2 ;; ret (a ++ b)) (mkDeck [10; 20; 30; 40])
  = draw (1 + 2) (mkDeck [10; 20; 30; 40]).
Proof.
  apply (draw_twice_is_draw_sum (mkDeck [10; 20; 30; 40]) 1 2);
    unfold len; simpl; lia.
Defined.

(** Drawing [size()] cards returns the whole deck in order and leaves it
    empty, after which [draw_one] returns [None] and [draw 1] raises. *)
Theorem draw_size_takes_everything {Card} (d : Deck Card) :
  (n <- size ;; draw n) d = (Ret (_cards d), mkDeck [])
  /\ (n <- size ;; draw n ;;; draw_one) d = (Ret None, mkDeck [])
  /\ (n <- size ;; draw n ;;; draw 1) d = (Raise ValueError, mkDeck []).
Proof.
  assert ((n <- size ;; draw n) d = (Ret (_cards d), mkDeck [])) as E.
  { unfold bind. rewrite size_run. rewrite draw_ok by (unfold len; lia).
    unfold len. by rewrite Nat2Z.id, firstn_all, drop_all. }
  unfold bind in *. rewrite size_run in *. cbn beta iota in *.
  destruct (draw (len (_cards d)) d) as [[r|e] d'];
    [|discriminate E].
  by injection E as -> ->.
Qed.

(** [clear] empties any deck: afterwards the size is 0, [is_empty] holds,
    [draw_one] returns [None], and [draw 1] and [peek 1] raise
    [ValueError]. *)
Theorem clear_leaves_empty_deck {Card} (d : Deck Card) :
  clear d = (Ret tt, mkDeck [])
  /\ (clear ;;; size) d = (Ret 0, mkDeck [])
  /\ (clear ;;; is_empty) d = (Ret true, mkDeck [])
  /\ (clear ;;; draw_one) d = (Ret None, mkDeck [])
  /\ (clear ;;; draw 1) d = (Raise ValueError, mkDeck [])
  /\ (clear ;;; peek 1) d = (Raise ValueError, mkDeck []).
Proof. by destruct d. Qed.

(** ** Emptiness and membership *)

(** The three emptiness tests agree and leave the deck alone: [is_empty]
    holds exactly when [size] is 0, which is exactly when [draw_one] has
    nothing to return; [__bool__] is its negation and [__len__] is
    [size]. *)
Theorem emptiness_tests_agree {Card} (d : Deck Card) :
  exists e : bool,
    is_empty d = (Ret e, d)
    /\ __bool__ d = (Ret (negb e), d)
    /\ __len__ d = size d
    /\ (e = true <-> size d = (Ret 0, d))
    /\ (e = true <-> draw_one d = (Ret None, d)).
Proof.
  exists (bool_decide (_cards d = [])). split_and!.
  - apply is_empty_run.
  - unfold __bool__, bind. by rewrite is_empty_run.
  - done.
  - rewrite size_run, bool_decide_eq_true. destruct d as [[|c l]]; simpl.
    + by split.
    + split; [done|]. unfold len. simpl. intros [=].
  - rewrite draw_one_run, bool_decide_eq_true.
    destruct d as [[|c l]]; simpl; split; done.
Qed.

Lemma contains_run {Card} `{EqDecision Card} (x : Card) (d : Deck Card) :
  __contains__ x d = (Ret (bool_decide (x ∈ _cards d)), d).
Proof. by destruct d. Qed.

(** After [add_card c] or [add_to_top c] the deck contains [c], and any
    other card exactly when it did before; after [clear] it contains
    nothing. *)
Theorem contains_follows_additions {Card} `{EqDecision Card}
    (c x : Card) (d : Deck Card) :
  ((add_card c ;;; __contains__ x) d).1
  = Ret (bool_decide (x = c) || bool_decide (x ∈ _cards d))
  /\ ((add_to_top c ;;; __contains__ x) d).1
     = Ret (bool_decide (x = c) || bool_decide (x ∈ _cards d))
  /\ ((clear ;;; __contains__ x) d).1 = Ret false.
Proof.
  destruct d as [l]. unfold bind, add_card, add_to_top, clear.
  rewrite !on_cards_run, !contains_run. simpl. split_and!.
  - apply (f_equal Ret), eq_bool_prop_intro.
    rewrite orb_True, !bool_decide_spec, elem_of_app, list_elem_of_singleton.
    tauto.
  - apply (f_equal Ret), eq_bool_prop_intro.
    by rewrite orb_True, !bool_decide_spec, elem_of_cons.
  - reflexivity.
Qed.

(** A drawn card was in the deck, and a card that is in the deck after a
    draw was in it before. *)
Theorem draw_only_removes {Card} `{EqDecision Card}
    (x : Card) (d d' : Deck Card) (count : Z) (drawn : list Card)
    (Hdraw : draw count d = (Ret drawn, d')) :
  (x ∈ drawn -> __contains__ x d = (Ret true, d))
  /\ (__contains__ x d' = (Ret true, d') -> __contains__ x d = (Ret true, d)).
Proof.
  destruct (decide (count < 0 \/ count > len (_cards d))) as [Hout|Hin].
  { rewrite draw_error in Hdraw by done. discriminate Hdraw. }
  rewrite draw_ok in Hdraw by lia. injection Hdraw as <- <-.
  rewrite !contains_run. cbn [_cards].
  split; intros Hx; f_equal; f_equal; apply bool_decide_eq_true_2.
  - rewrite <- (take_drop (Z.to_nat count) (_cards d)).
    apply elem_of_app. by left.
  - injection Hx as Hx. apply bool_decide_eq_true_1 in Hx.
    rewrite <- (take_drop (Z.to_nat count) (_cards d)).
    apply elem_of_app. by right.
Qed.

Lemma draw_only_removes_witness :
  (20 ∈ [10; 20] ->
   __contains__ 20 (mkDeck [10; 20; 30]) = (Ret true, mkDeck [10; 20; 30]))
  /\ (__contains__ 20 (mkDeck [30]) = (Ret true, mkDeck [30]) ->
      __contains__ 20 (mkDeck [10; 20; 30]) = (Ret true, mkDeck [10; 20; 30])).
Proof.
  apply (draw_only_removes 20 (mkDeck [10; 20; 30]) (mkDeck [30]) 2 [10; 20]).
  reflexivity.
Defined.

(** ** More on rotation *)
Section RotationLookup.
Context {A : Type}.
Implicit Types (l : list A) (i : nat) (k : Z).

(** Where each element comes from. *)
Lemma lookup_rotated k l i :
  (i < length l)%nat ->
  rotated k l !! i = l !! Z.to_nat ((Z.of_nat i - k) mod len l).
Proof.
  intros Hi. unfold rotated, len.
  assert (0 < Z.of_nat (length l)) as HN by lia.
  pose proof (Z.mod_pos_bound k _ HN) as Hj.
  rewrite <- (Zminus_mod_idemp_r (Z.of_nat i) k).
  set (j := k mod Z.of_nat (length l)) in *.
  destruct (decide (i < Z.to_nat j)%nat) as [Hlt|Hge].
  - rewrite lookup_app_l by (rewrite length_drop; lia).
    rewrite lookup_drop. f_equal.
    rewrite <- (Z_mod_plus_full _ 1), Z.mod_small by lia. lia.
  - rewrite lookup_app_r by (rewrite length_drop; lia).
    rewrite length_drop, lookup_take_lt by lia. f_equal.
    rewrite Z.mod_small by lia. lia.
Qed.

Lemma rotated_add (a b : Z) l : rotated b (rotated a l) = rotated (a + b) l.
Proof.
  apply list_eq. intros i.
  destruct (decide (i < length l)%nat) as [Hi|Hi].
  - assert (0 < len l) as HN by (unfold len; lia).
    rewrite lookup_rotated by (by rewrite length_rotated).
    assert (len (rotated a l) = len l) as ->
      by (unfold len; by rewrite length_rotated).
    pose proof (Z.mod_pos_bound (Z.of_nat i - b) _ HN) as Hb.
    rewrite lookup_rotated by (unfold len in *; lia).
    rewrite lookup_rotated by done.
    rewrite Z2Nat.id by lia. rewrite Zminus_mod_idemp_l.
    do 2 f_equal. f_equal. lia.
  - rewrite !lookup_ge_None_2; [done|rewrite length_rotated; lia|].
    rewrite !length_rotated. lia.
Qed.

Lemma rotated_Permutation k l : rotated k l ≡ₚ l.
Proof.
  unfold rotated. rewrite Permutation_app_comm. by rewrite take_drop.
Qed.
End RotationLookup.

(** After [rotate k], for a count [k] that fits a machine word, the card
    at position [i] (0 is the top) is the card that was at position
    [(i - k) mod n]: a positive [k] moves cards from the bottom to the
    top. *)
Theorem rotate_moves_bottom_to_top {Card} (d : Deck Card) (k : Z) (i : nat)
    (Hk : PY_SSIZE_T_MIN <= k <= PY_SSIZE_T_MAX)
    (Hi : (i < length (_cards d))%nat) :
  exists d' : Deck Card,
    rotate k d = (Ret tt, d')
    /\ _cards d' !! i
       = _cards d !! Z.to_nat ((Z.of_nat i - k) mod len (_cards d)).
Proof.
  eexists. split; [by apply rotate_run|]. by apply lookup_rotated.
Qed.

Lemma rotate_moves_bottom_to_top_witness :
  exists d' : Deck Z,
    rotate 1 (mkDeck [10; 20; 30]) = (Ret tt, d')
    /\ _cards d' !! 0%nat
       = [10; 20; 30] !! Z.to_nat ((Z.of_nat 0 - 1) mod len [10; 20; 30]).
Proof.
  apply (rotate_moves_bottom_to_top (mkDeck [10; 20; 30]) 1 0).
  - unfold PY_SSIZE_T_MIN, PY_SSIZE_T_MAX. lia.
  - simpl. lia.
Defined.

(** Rotations compose by adding their counts, whatever the signs, when the
    two counts and their sum fit a machine word. *)
Theorem rotate_twice_is_rotate_sum {Card} (d : Deck Card) (a b : Z)
    (Ha : PY_SSIZE_T_MIN <= a <= PY_SSIZE_T_MAX)
    (Hb : PY_SSIZE_T_MIN <= b <= PY_SSIZE_T_MAX)
    (Hab : PY_SSIZE_T_MIN <= a + b <= PY_SSIZE_T_MAX) :
  (rotate a ;;; rotate b) d = rotate (a + b) d.
Proof.
  unfold bind. rewrite !rotate_run by done. cbn [_cards].
  by rewrite rotated_add.
Qed.

Lemma rotate_twice_is_rotate_sum_witness :
  (rotate 2 ;;; rotate (-5)) (mkDeck [10; 20; 30; 40])
  = rotate (2 + -5) (mkDeck [10; 20; 30; 40]).
Proof.
  apply (rotate_twice_is_rotate_sum (mkDeck [10; 20; 30; 40]) 2 (-5));
    unfold PY_SSIZE_T_MIN, PY_SSIZE_T_MAX; lia.
Defined.

(** [rotate] only reorders: for a count that fits a machine word the deck
    afterwards is a permutation of the deck before, of the same size. *)
Theorem rotate_permutes {Card} (d : Deck Card) (k : Z)
    (Hk : PY_SSIZE_T_MIN <= k <= PY_SSIZE_T_MAX) :
  exists d' : Deck Card,
    rotate k d = (Ret tt, d')
    /\ _cards d' ≡ₚ _cards d
    /\ size d' = (Ret (len (_cards d)), d').
Proof.
  eexists. split; [by apply rotate_run|]. split.
  - apply rotated_Permutation.
  - rewrite size_run. cbn [_cards]. unfold len. by rewrite length_rotated.
Qed.

Lemma rotate_permutes_witness :
  exists d' : Deck Z,
    rotate 4 (mkDeck [10; 20; 30]) = (Ret tt, d')
    /\ _cards d' ≡ₚ [10; 20; 30]
    /\ size d' = (Ret (len [10; 20; 30]), d').
Proof.
  apply (rotate_permutes (mkDeck [10; 20; 30]) 4).
  unfold PY_SSIZE_T_MIN, PY_SSIZE_T_MAX. lia.
Defined.

(** A card added at the bottom and rotated by one is a card added on top,
    and a card added on top and rotated back by one is a card added at the
    bottom. *)
Theorem add_card_rotate_is_add_to_top {Card} (card : Card) (d : Deck Card) :
  (add_card card ;;; rotate 1) d = add_to_top card d
  /\ (add_to_top card ;;; rotate (-1)) d = add_card card d.
Proof.
  destruct d as [l]. unfold bind, add_card, add_to_top, rotate.
  rewrite !on_cards_run. cbn [fst snd _cards deque_append deque_appendleft].
  split.
  - assert ((len (l ++ [card]) =? 0) = false) as Hlen
      by (apply Z.eqb_neq; unfold len; rewrite length_app; simpl; lia).
    unfold deque_rotate, bind, deque_len.
    change (negb (fits_ssize_t 1)) with false. cbn beta iota.
    rewrite Hlen. simpl. unfold bind. by rewrite right_step_snoc.
  - assert ((len (card :: l) =? 0) = false) as Hlen
      by (apply Z.eqb_neq; unfold len; simpl; lia).
    unfold deque_rotate, bind, deque_len.
    change (negb (fits_ssize_t (-1))) with false. cbn beta iota.
    by rewrite Hlen.
Qed.

(** ** More on the distribution *)
Section DistributionInvariance.
Context {Card : Type} `{CardAPI Card}.

Lemma count_if_Permutation (p : Card -> bool) (l l' : list Card) :
  l ≡ₚ l' -> count_if p l = count_if p l'.
Proof.
  induction 1 as [|x l l' _ IH|x y l|l l' l'' _ IH1 _ IH2]; simpl; lia.
Qed.

(** The distribution depends on the cards as a multiset only. *)
Lemma distribution_Permutation (d d' : Deck Card) :
  _cards d ≡ₚ _cards d' ->
  (get_card_distribution d).1 = (get_card_distribution d').1.
Proof.
  intros Hp.
  destruct (get_card_distribution_run d)
    as ([t n a w bc bl] & -> & Ht & Hn & Ha & Hw & Hbc & Hbl).
  destruct (get_card_distribution_run d')
    as ([t' n' a' w' bc' bl'] & -> & Ht' & Hn' & Ha' & Hw' & Hbc' & Hbl').
  simpl in *. f_equal.
  assert (t = t') as <-
    by (subst; unfold len; by rewrite (Permutation_length Hp)).
  assert (n = n') as <- by (subst; by apply count_if_Permutation).
  assert (a = a') as <- by (subst; by apply count_if_Permutation).
  assert (w = w') as <- by (subst; by apply count_if_Permutation).
  assert (bc = bc') as <-.
  { apply map_eq. intros k. rewrite Hbc, Hbc'. f_equal.
    by apply count_if_Permutation. }
  assert (bl = bl') as <-; [|done].
  apply map_eq. intros k. rewrite Hbl, Hbl'. f_equal.
  by apply count_if_Permutation.
Qed.

Lemma colors_partition (cards : list Card) :
  count_if (fun c => bool_decide (color c = RED)) cards
  + count_if (fun c => bool_decide (color c = BLUE)) cards
  + count_if (fun c => bool_decide (color c = GREEN)) cards
  + count_if (fun c => bool_decide (color c = YELLOW)) cards
  + count_if (fun c => bool_decide (color c = WILD_COLOR)) cards
  = len cards.
Proof.
  unfold len. induction cards as [|c cards IH]; simpl; [done|].
  destruct (color c); simpl; lia.
Qed.

Lemma foldr_sum_add {K} (f g : K -> Z) (ks : list K) :
  foldr (fun k acc => (f k + g k) + acc) 0 ks
  = foldr (fun k acc => f k + acc) 0 ks + foldr (fun k acc => g k + acc) 0 ks.
Proof. induction ks as [|k ks IH]; simpl; lia. Qed.

Lemma label_counted_once (c : Card) :
  foldr (fun k acc => Z.b2z (bool_decide (label c = k)) + acc) 0 all_labels = 1.
Proof. unfold all_labels. cbn [foldr]. by destruct (label c). Qed.

Lemma labels_partition (cards : list Card) :
  foldr (fun k acc =>
           count_if (fun c => bool_decide (label c = k)) cards + acc)
        0 all_labels
  = len cards.
Proof.
  unfold len. induction cards as [|c cards IH]; [done|].
  cbn [count_if].
  rewrite (foldr_sum_add (fun k => Z.b2z (bool_decide (label c = k)))
             (fun k => count_if (fun c => bool_decide (label c = k)) cards)).
  rewrite label_counted_once, IH. cbn [length]. lia.
Qed.
End DistributionInvariance.

(** [get_card_distribution] reports under each colour and under each label
    the number of cards that carry it; every card is counted under exactly
    one colour and one label, so both breakdowns add up to [total]. *)
Theorem distribution_breakdowns_partition {Card} `{CardAPI Card} (d : Deck Card) :
  exists dist : Distribution,
    get_card_distribution d = (Ret dist, d)
    /\ (forall k, by_color dist !! k
                  = Some (count_if (fun c => bool_decide (color c = k)) (_cards d)))
    /\ (forall k, by_label dist !! k
                  = Some (count_if (fun c => bool_decide (label c = k)) (_cards d)))
    /\ dict_sum all_colors (by_color dist) = total dist
    /\ dict_sum all_labels (by_label dist) = total dist.
Proof.
  destruct (get_card_distribution_run d)
    as (dist & E & Ht & _ & _ & _ & Hbc & Hbl).
  exists dist. split_and!; try done.
  - unfold dict_sum, all_colors. cbn [foldr]. rewrite !Hbc, Ht.
    unfold default. cbn [from_option id].
    rewrite <- (colors_partition (_cards d)). lia.
  - rewrite Ht, <- (labels_partition (_cards d)).
    unfold dict_sum, all_labels. cbn [foldr]. rewrite !Hbl. done.
Qed.

(** Reordering does not change the distribution: after [rotate], for a
    count that fits a machine word, and after [shuffle],
    [get_card_distribution] returns what it returned before. *)
Theorem distribution_unchanged_by_reordering {G Card} `{CardAPI Card}
    (next : G -> nat * G) (g : G) (k : Z) (d : Deck Card)
    (Hk : PY_SSIZE_T_MIN <= k <= PY_SSIZE_T_MAX) :
  ((rotate k ;;; get_card_distribution) d).1 = (get_card_distribution d).1
  /\ ((shuffle next ;;; in_snd get_card_distribution) (g, d)).1
     = (get_card_distribution d).1.
Proof.
  split.
  - unfold bind. rewrite rotate_run by done.
    apply distribution_Permutation, rotated_Permutation.
  - destruct (random_shuffle_run next (_cards d) g) as (x' & g' & E & Hp).
    assert (shuffle next (g, d) = (Ret tt, (g', mkDeck x'))) as Es.
    { unfold shuffle, bind, zoom, iter_list, on_cards, zoom, put. simpl.
      by rewrite E. }
    unfold bind. rewrite Es. unfold in_snd, zoom. cbn [fst snd].
    rewrite <- (distribution_Permutation (mkDeck x') d Hp).
    by destruct (get_card_distribution (mkDeck x')).
Qed.

Lemma distribution_unchanged_by_reordering_witness :
  ((rotate 2 ;;; get_card_distribution)
     (mkDeck [mkCard RED FIVE; mkCard BLUE SKIP; mkCard WILD_COLOR WILD])).1
  = (get_card_distribution
       (mkDeck [mkCard RED FIVE; mkCard BLUE SKIP; mkCard WILD_COLOR WILD])).1
  /\ ((shuffle lcg_next ;;; in_snd get_card_distribution)
        (1%nat,
         mkDeck [mkCard RED FIVE; mkCard BLUE SKIP; mkCard WILD_COLOR WILD])).1
     = (get_card_distribution
          (mkDeck [mkCard RED FIVE; mkCard BLUE SKIP; mkCard WILD_COLOR WILD])).1.
Proof.
  apply (distribution_unchanged_by_reordering lcg_next 1%nat 2
           (mkDeck [mkCard RED FIVE; mkCard BLUE SKIP; mkCard WILD_COLOR WILD])).
  unfold PY_SSIZE_T_MIN, PY_SSIZE_T_MAX. lia.
Defined.

(** Reordering does not change membership either: not [rotate], for a
    count that fits a machine word, and not [shuffle]. *)
Theorem contains_unchanged_by_reordering {G Card} `{EqDecision Card}
    (next : G -> nat * G) (g : G) (k : Z) (x : Card) (d : Deck Card)
    (Hk : PY_SSIZE_T_MIN <= k <= PY_SSIZE_T_MAX) :
  ((rotate k ;;; __contains__ x) d).1 = (__contains__ x d).1
  /\ ((shuffle next ;;; in_snd (__contains__ x)) (g, d)).1
     = (__contains__ x d).1.
Proof.
  assert (forall l l' : list Card,
             l ≡ₚ l' -> bool_decide (x ∈ l) = bool_decide (x ∈ l')) as Hmem.
  { intros l l' Hp. apply bool_decide_ext. by rewrite Hp. }
  split.
  - unfold bind. rewrite rotate_run by done. rewrite !contains_run.
    cbn [fst _cards].
    f_equal. apply Hmem, rotated_Permutation.
  - destruct (random_shuffle_run next (_cards d) g) as (x' & g' & E & Hp).
    assert (shuffle next (g, d) = (Ret tt, (g', mkDeck x'))) as Es.
    { unfold shuffle, bind, zoom, iter_list, on_cards, zoom, put. simpl.
      by rewrite E. }
    unfold bind. rewrite Es. unfold in_snd, zoom. cbn [fst snd].
    rewrite !contains_run. cbn [fst _cards]. f_equal. by apply Hmem.
Qed.

Lemma contains_unchanged_by_reordering_witness :
  ((rotate 2 ;;; __contains__ 20) (mkDeck [10; 20; 30])).1
  = (__contains__ 20 (mkDeck [10; 20; 30])).1
  /\ ((shuffle lcg_next ;;; in_snd (__contains__ 20))
        (1%nat, mkDeck [10; 20; 30])).1
     = (__contains__ 20 (mkDeck [10; 20; 30])).1.
Proof.
  apply (contains_unchanged_by_reordering lcg_next 1%nat 2 20
           (mkDeck [10; 20; 30])).
  unfold PY_SSIZE_T_MIN, PY_SSIZE_T_MAX. lia.
Defined.

(** ** More on the standard deck *)
Section StandardDeckOrder.
Context {Card : Type} `{CardFactoryLaws Card}.

Lemma Forall_build (q : card_request -> bool) (P : Card -> Prop)
    (rs : list card_request) :
  (forall r, documented r = true -> q r = true -> P (build r)) ->
  forallb (fun r => documented r && q r) rs = true ->
  Forall P (build <$> rs).
Proof.
  intros HP Hall. apply Forall_fmap, List.Forall_forall. intros r Hr.
  apply (proj1 (List.forallb_forall _ _) Hall) in Hr.
  apply andb_prop in Hr as [Hd Hq]. by apply HP.
Qed.

Lemma built_number r :
  documented r = true -> is_number_request r = true ->
  is_number_card (build r) = true.
Proof. intros Hd Hq. by rewrite build_number. Qed.

Lemma built_action r :
  documented r = true -> is_action_request r = true ->
  is_number_card (build r) = false /\ is_action_card (build r) = true.
Proof.
  intros Hd Hq. pose proof (build_action r Hd) as Ha.
  rewrite build_number in Ha |- * by done.
  destruct r; try discriminate Hq. simpl in *. by rewrite Ha.
Qed.

Lemma built_wild r :
  documented r = true -> is_wild_request r = true ->
  is_number_card (build r) = false /\ is_action_card (build r) = false
  /\ is_wild (build r) = true.
Proof.
  intros Hd Hq. destruct r as [| |w]; try discriminate Hq.
  apply documented_wild in Hd. simpl.
  by rewrite wild_card_not_number, wild_card_not_action, wild_card_is_wild.
Qed.
End StandardDeckOrder.

Lemma new_Deck_true_run {Card} `{CardFactory Card} :
  new_Deck true
  = (Ret tt,
     mkDeck (wild_cards_to_add (action_cards_to_add (number_cards_to_add [])))).
Proof.
  unfold new_Deck, Deck_init, _initialize_standard_deck, bind, put.
  by rewrite !on_cards_run, deque_extend_run.
Qed.

(** [_initialize_standard_deck] starts by clearing: run on a deck in any
    state it leaves exactly the 108 cards of a new standard deck, so running
    it again changes nothing. *)
Theorem initialize_resets_deck {Card} `{CardFactory Card} (d : Deck Card) :
  _initialize_standard_deck d = new_Deck true
  /\ ((_initialize_standard_deck ;;; size) d).1 = Ret 108
  /\ (_initialize_standard_deck ;;; _initialize_standard_deck) d
     = _initialize_standard_deck d.
Proof.
  assert (forall e : Deck Card, _initialize_standard_deck e = new_Deck true)
    as Hinit.
  { intros e. rewrite new_Deck_true_run.
    unfold _initialize_standard_deck, bind.
    by rewrite !on_cards_run, deque_extend_run. }
  split_and!.
  - apply Hinit.
  - unfold bind. by rewrite Hinit, new_Deck_true_run, size_run.
  - unfold bind. rewrite (Hinit d), new_Deck_true_run. apply Hinit.
Qed.

(** The standard deck is built in a fixed order: the 76 number cards come
    first, then the 24 action cards, then the 8 wild cards, and the top card
    is the red zero. *)
Theorem standard_deck_construction_order {Card} `{CardFactoryLaws Card} :
  exists (d : Deck Card) (numbers actions wilds : list Card),
    new_Deck true = (Ret tt, d)
    /\ (a <- draw 76 ;; b <- draw 24 ;; c <- draw 8 ;; ret (a, b, c)) d
       = (Ret (numbers, actions, wilds), mkDeck [])
    /\ Forall (fun c => is_number_card c = true) numbers
    /\ Forall (fun c => is_number_card c = false /\ is_action_card c = true)
              actions
    /\ Forall (fun c => is_number_card c = false /\ is_action_card c = false
                        /\ is_wild c = true) wilds
    /\ peek 1 d = (Ret [create_number_card RED 0], d).
Proof.
  exists (mkDeck (build <$> standard_requests)),
    (build <$> take 76 standard_requests),
    (build <$> take 24 (drop 76 standard_requests)),
    (build <$> drop 100 standard_requests).
  split_and!.
  - apply new_Deck_standard.
  - reflexivity.
  - apply (Forall_build is_number_request); [apply built_number|].
    by vm_compute.
  - apply (Forall_build is_action_request); [apply built_action|].
    by vm_compute.
  - apply (Forall_build is_wild_request); [apply built_wild|].
    by vm_compute.
  - reflexivity.
Qed.

Lemma standard_deck_construction_order_witness :
  exists (d : Deck UnoCard) (numbers actions wilds : list UnoCard),
    new_Deck true = (Ret tt, d)
    /\ (a <- draw 76 ;; b <- draw 24 ;; c <- draw 8 ;; ret (a, b, c)) d
       = (Ret (numbers, actions, wilds), mkDeck [])
    /\ Forall (fun c => is_number_card c = true) numbers
    /\ Forall (fun c => is_number_card c = false /\ is_action_card c = true)
              actions
    /\ Forall (fun c => is_number_card c = false /\ is_action_card c = false
                        /\ is_wild c = true) wilds
    /\ peek 1 d = (Ret [create_number_card RED 0], d).
Proof.
  apply (@standard_deck_construction_order UnoCard _ _ UnoCard_laws).
Defined.

(** ** The builder and the module-level factories *)
Section FactoryFacts.
Context {Card : Type} `{CardFactory Card}.
Implicit Types (h : gmap nat (Deck Card)) (b : DeckBuilder Card).

Lemma Deck_new_run (initialize : bool) h :
  Deck_new initialize h
  = (Ret (fresh (dom h)),
     <[fresh (dom h) := mkDeck (initial_cards initialize)]> h).
Proof.
  unfold Deck_new. destruct initialize.
  - by rewrite new_Deck_true_run.
  - done.
Qed.

Lemma build_run b h :
  DeckBuilder_build (b, h)
  = (Ret (fresh (dom h)),
     (b, <[fresh (dom h) :=
             mkDeck (initial_cards (_include_standard_cards b)
                     ++ _custom_cards b)]> h)).
Proof.
  destruct b as [flag [|c custom]];
    unfold DeckBuilder_build, bind, in_fst, in_snd, zoom, reads, ret;
    cbn [fst snd _include_standard_cards _custom_cards];
    rewrite Deck_new_run; cbn [fst snd _custom_cards].
  - by rewrite app_nil_r.
  - erewrite call_run; [|apply lookup_insert_eq|apply add_cards_run].
    by rewrite insert_insert_eq.
Qed.
End FactoryFacts.

(** [DeckBuilder.build] creates a new deck, one the store did not hold,
    with the standard cards when they are not excluded, followed by the
    queued custom cards in the order they were queued; the builder and the
    other decks are unchanged.  With the standard cards the deck has 108
    cards more than were queued. *)
Theorem build_standard_then_custom {Card} `{CardFactory Card}
    (b : DeckBuilder Card) (h : gmap nat (Deck Card)) :
  exists new : nat,
    DeckBuilder_build (b, h)
    = (Ret new,
       (b, <[new := mkDeck (initial_cards (_include_standard_cards b)
                            ++ _custom_cards b)]> h))
    /\ h !! new = None
    /\ len (initial_cards true ++ _custom_cards b) = 108 + len (_custom_cards b)
    /\ initial_cards false ++ _custom_cards b = _custom_cards b.
Proof.
  exists (fresh (dom h)). split_and!.
  - apply build_run.
  - apply fresh_ref_unused.
  - unfold len. rewrite length_app. by rewrite Nat2Z.inj_add.
  - done.
Qed.

(** A chain of builder calls: excluding the standard cards and queueing a
    list and then one more card builds a deck of exactly these cards in
    that order; a builder left as created builds the standard deck. *)
Theorem builder_chain_builds_queued_cards {Card} `{CardFactory Card}
    (cards : list Card) (card : Card) (h : gmap nat (Deck Card)) :
  (in_fst (exclude_standard_cards ;;; add_custom_cards cards ;;;
           add_custom_card card) ;;;
   DeckBuilder_build) (DeckBuilder_new, h)
  = (Ret (fresh (dom h)),
     (mkDeckBuilder false (cards ++ [card]),
      <[fresh (dom h) := mkDeck (cards ++ [card])]> h))
  /\ DeckBuilder_build (DeckBuilder_new, h)
     = in_snd (Deck_new true) (DeckBuilder_new, h).
Proof.
  split.
  - unfold bind at 1, in_fst, zoom. cbn [fst snd].
    assert ((exclude_standard_cards ;;; add_custom_cards cards ;;;
             add_custom_card card) (DeckBuilder_new (Card := Card))
            = (Ret tt, mkDeckBuilder false (cards ++ [card]))) as ->.
    { unfold bind, exclude_standard_cards, add_custom_cards, add_custom_card,
        zoom, DeckBuilder_new.
      cbn [_custom_cards _include_standard_cards].
      by rewrite deque_extend_run. }
    by rewrite build_run.
  - rewrite build_run. unfold in_snd, zoom. cbn [fst snd].
    rewrite Deck_new_run. unfold DeckBuilder_new. cbn [_custom_cards
      _include_standard_cards]. by rewrite app_nil_r.
Qed.

(** A builder can be used again: two builds give two different decks, and a
    card queued after the first build is in the second deck only. *)
Theorem builder_reuse_gives_independent_decks {Card} `{CardFactory Card}
    (b : DeckBuilder Card) (card : Card) (h : gmap nat (Deck Card)) :
  exists (first second : nat) (b' : DeckBuilder Card)
         (h' : gmap nat (Deck Card)),
    (x <- DeckBuilder_build ;; in_fst (add_custom_card card) ;;;
     y <- DeckBuilder_build ;; ret (x, y)) (b, h)
    = (Ret (first, second), (b', h'))
    /\ first <> second
    /\ h' !! first
       = Some (mkDeck (initial_cards (_include_standard_cards b)
                       ++ _custom_cards b))
    /\ h' !! second
       = Some (mkDeck (initial_cards (_include_standard_cards b)
                       ++ _custom_cards b ++ [card])).
Proof.
  set (first := fresh (dom h)).
  set (d1 := mkDeck (initial_cards (_include_standard_cards b)
                     ++ _custom_cards b)).
  set (h1 := <[first := d1]> h).
  set (second := fresh (dom h1)).
  assert (h1 !! second = None) as Hsecond by apply fresh_ref_unused.
  assert (first <> second) as Hne.
  { intros Heq. rewrite <- Heq in Hsecond. subst h1.
    by rewrite lookup_insert_eq in Hsecond. }
  eexists first, second, _, _. split_and!.
  - unfold bind. rewrite build_run. fold first d1 h1.
    unfold in_fst, zoom, add_custom_card. cbn [fst snd].
    rewrite build_run. fold second. reflexivity.
  - done.
  - rewrite lookup_insert_ne by done. apply lookup_insert_eq.
  - rewrite lookup_insert_eq. cbn [_include_standard_cards _custom_cards].
    done.
Qed.

Section RandomFactoryFacts.
Context {G : Type} (next : G -> nat * G).
Context {Card : Type}.

Lemma shuffle_run (g : G) (d : Deck Card) :
  exists (g' : G) (cards' : list Card),
    shuffle next (g, d) = (Ret tt, (g', mkDeck cards'))
    /\ cards' ≡ₚ _cards d.
Proof.
  destruct (random_shuffle_run next (_cards d) g) as (x' & g' & E & Hp).
  exists g', x'. split; [|done].
  unfold shuffle, bind, zoom, iter_list, on_cards, zoom, put. simpl.
  by rewrite E.
Qed.
End RandomFactoryFacts.

(** [shuffle] leaves a deck of at most one card as it is and does not use
    the generator. *)
Theorem shuffle_leaves_small_deck {G Card}
    (next : G -> nat * G) (g : G) (d : Deck Card)
    (Hsmall : (length (_cards d) <= 1)%nat) :
  shuffle next (g, d) = (Ret tt, (g, d)).
Proof.
  destruct d as [[|c [|c' l]]]; [done|done|]. simpl in Hsmall. lia.
Qed.

Lemma shuffle_leaves_small_deck_witness :
  shuffle lcg_next (1%nat, mkDeck [7]) = (Ret tt, (1%nat, mkDeck [7])).
Proof.
  apply (shuffle_leaves_small_deck lcg_next 1%nat (mkDeck [7])). simpl. lia.
Defined.

Section CreateStandardDeck.
Context {G : Type} (next : G -> nat * G).
Context {Card : Type} `{CardFactory Card}.

Lemma call_random_run {B} (ref : nat) (m : M (G * Deck Card) B)
    (g g' : G) (h : gmap nat (Deck Card)) (self self' : Deck Card) (r : outcome B) :
  h !! ref = Some self ->
  m (g, self) = (r, (g', self')) ->
  call_random ref m (g, h) = (r, (g', <[ref := self']> h)).
Proof.
  intros Hl Hm. unfold call_random. cbn [fst snd]. by rewrite Hl, Hm.
Qed.
End CreateStandardDeck.

(** [create_standard_deck] returns a new deck of the 108 standard cards:
    in construction order and without touching the generator when
    [shuffled] is false, in some permutation of it when [shuffled] is
    true.  The other decks are unchanged. *)
Theorem create_standard_deck_is_new_and_complete {G Card} `{CardFactory Card}
    (next : G -> nat * G) (g : G) (h : gmap nat (Deck Card)) :
  h !! fresh (dom h) = None
  /\ create_standard_deck next false (g, h)
     = (Ret (fresh (dom h)),
        (g, <[fresh (dom h) := mkDeck (initial_cards true)]> h))
  /\ exists (g' : G) (cards' : list Card),
       create_standard_deck next true (g, h)
       = (Ret (fresh (dom h)), (g', <[fresh (dom h) := mkDeck cards']> h))
       /\ cards' ≡ₚ initial_cards true
       /\ len cards' = 108.
Proof.
  split; [apply fresh_ref_unused|]. split.
  - unfold create_standard_deck, bind, in_snd, zoom. cbn [fst snd].
    by rewrite Deck_new_run.
  - destruct (shuffle_run next g (mkDeck (initial_cards true)))
      as (g' & cards' & E & Hp).
    exists g', cards'. split_and!; [|done|].
    + unfold create_standard_deck, bind, in_snd, zoom. cbn [fst snd].
      rewrite Deck_new_run. cbn [fst snd].
      erewrite call_random_run; [|apply lookup_insert_eq|exact E].
      by rewrite insert_insert_eq.
    + unfold len. by rewrite (Permutation_length Hp).
Qed.

(** [create_discard_pile] returns a new deck that holds the initial card
    alone when one is given and is truthy, and no card when none is given;
    a card that is falsy is left out. *)
Theorem create_discard_pile_holds_initial_card {Card} `{CardFactory Card}
    (truth : Card -> bool) (initial_card : option Card)
    (h : gmap nat (Deck Card)) :
  h !! fresh (dom h) = None
  /\ create_discard_pile truth initial_card h
     = (Ret (fresh (dom h)),
        <[fresh (dom h) :=
            mkDeck (match initial_card with
                    | Some card => if truth card then [card] else []
                    | None => []
                    end)]> h).
Proof.
  split; [apply fresh_ref_unused|].
  unfold create_discard_pile, bind. rewrite create_empty_deck_run.
  destruct initial_card as [card|]; [|done].
  destruct (truth card); [|done].
  erewrite call_run; [|apply lookup_insert_eq|apply on_cards_run].
  by rewrite insert_insert_eq.
Qed.

Lemma clear_run {Card} (d : Deck Card) : clear d = (Ret tt, mkDeck []).
Proof. by destruct d. Qed.

(** The merged deck shares nothing with the decks it was made from:
    emptying both afterwards leaves it with all their cards. *)
Theorem merged_deck_survives_clearing {Card} `{CardFactory Card}
    (h : gmap nat (Deck Card)) (a b : nat) (da db : Deck Card)
    (Ha : h !! a = Some da) (Hb : h !! b = Some db) :
  ((new <- merge_decks a b ;; call a clear ;;; call b clear ;;;
    call new iter_list) h).1
  = Ret (_cards da ++ _cards db).
Proof.
  pose proof (fresh_ref_unused h) as Hnew.
  unfold bind. rewrite (merge_decks_run h a b da db Ha Hb).
  set (new := fresh (dom h)) in *.
  set (merged := mkDeck (_cards da ++ _cards db)).
  assert (a <> new) as Hna by congruence.
  assert (b <> new) as Hnb by congruence.
  set (h1 := <[new := merged]> h).
  assert (h1 !! a = Some da) as Ha1
    by (subst h1; by rewrite lookup_insert_ne).
  rewrite (call_run a clear h1 da _ _ Ha1 (clear_run da)).
  set (h2 := <[a := mkDeck []]> h1).
  assert (exists db', h2 !! b = Some db') as [db' Hb2].
  { subst h2 h1. destruct (decide (a = b)) as [->|Hab].
    - eexists. apply lookup_insert_eq.
    - exists db. by rewrite !lookup_insert_ne. }
  rewrite (call_run b clear h2 db' _ _ Hb2 (clear_run db')).
  set (h3 := <[b := mkDeck []]> h2).
  assert (h3 !! new = Some merged) as Hn3.
  { subst h3 h2 h1. rewrite !lookup_insert_ne by done.
    apply lookup_insert_eq. }
  by rewrite (call_run new iter_list h3 merged _ _ Hn3 (iter_list_run merged)).
Qed.

Lemma merged_deck_survives_clearing_witness :
  ((new <- merge_decks 0 1 ;; call 0%nat clear ;;; call 1%nat clear ;;;
    call new iter_list) two_decks).1
  = Ret ([mkCard RED FIVE; mkCard BLUE SKIP] ++ [mkCard WILD_COLOR WILD]).
Proof.
  apply (merged_deck_survives_clearing two_decks 0 1
           (mkDeck [mkCard RED FIVE; mkCard BLUE SKIP])
           (mkDeck [mkCard WILD_COLOR WILD])); reflexivity.
Defined.
